(** * erreur: structured errors with context fields

    A shallow embedding of [structured.go] (package [erreur]) and of the
    part of [go.uber.org/zap] it calls, with the properties of its
    constructors, accessors, chain inspection and serialization. *)

From Stdlib Require Import String Ascii ZArith NArith List Bool Arith Lia.
From Stdlib Require Import DecimalString DecimalPos.
Import ListNotations.
Local Open Scope string_scope.

(** ** Outcomes of a call

    Go code either returns or panics.  Calling a method on a nil interface
    value (as [Error] and [errorOrCause] do on a [Structured] holding
    neither an error nor a cause) is a run-time panic.  [OutOfFuel] is the
    outcome of a step-bounded model that was given too few steps; it is
    not an outcome of the Go program. *)

Inductive result (A : Type) : Type :=
| Ok (a : A)
| Panic
| OutOfFuel.

Arguments Ok {A} a.
Arguments Panic {A}.
Arguments OutOfFuel {A}.

Definition bind {A B : Type} (r : result A) (k : A -> result B) : result B :=
  match r with
  | Ok a => k a
  | Panic => Panic
  | OutOfFuel => OutOfFuel
  end.

Notation "x <- r ;; k" := (bind r (fun x => k))
  (at level 61, r at next level, right associativity).

(** ** Data model

    A Go [error] is an interface value.  The dynamic types that the code
    can tell apart are: the package's own [String] and [Structured], and
    any other type ("foreign"), of which the code observes the [Error()]
    text and whether it has the [wrapper] capability [Unwrap() error].
    A nil interface value is [None : option error].

    [EForeign text unwrap]: [text] is what [Error()] returns;
    [unwrap = None] when the type has no [Unwrap] method, [Some r] when it
    has one that returns [r] ([r = None] is a nil result).  The methods of
    a foreign error are taken to return.  A value of type [error] is a
    finite tree, so the unwrap chain it starts is finite and has no cycle.

    [zapcore_Field] is [zapcore.Field] restricted to the field kinds used
    here: the no-op field, string, integer and boolean fields, an object
    field whose marshaler is a [Structured], and an error field. *)

#[local] Unset Elimination Schemes.

Inductive error : Type :=
| EString (es : string)
| EStructured (s : Structured)
| EForeign (text : string) (unwrap : option (option error))
with Structured : Type :=
| mkStructured (causer : option error) (err : option error)
               (fields : list zapcore_Field)
with zapcore_Field : Type :=
| zap_Skip
| zap_String (key val : string)
| zap_Int64 (key : string) (val : Z)
| zap_Bool (key : string) (val : bool)
| zap_Object (key : string) (obj : Structured)
| zap_NamedError (key : string) (e : error).

#[local] Set Elimination Schemes.

Definition causer (s : Structured) : option error :=
  let '(mkStructured c _ _) := s in c.
Definition err (s : Structured) : option error :=
  let '(mkStructured _ e _) := s in e.
Definition fields (s : Structured) : list zapcore_Field :=
  let '(mkStructured _ _ fs) := s in fs.

(** The zero value [Structured{}] ([var s Structured]). *)
Definition zero_Structured : Structured := mkStructured None None [].

(** [zap.Int] stores an [int64]; [zap.Error(err)] on a non-nil [err] is
    [NamedError("error", err)]. *)
Definition zap_Int (key : string) (val : Z) : zapcore_Field := zap_Int64 key val.
Definition zap_Error (e : error) : zapcore_Field := zap_NamedError "error" e.

(** ** Constructors *)

Definition Structure (cause : option error) (fs : list zapcore_Field)
  : option error :=
  match cause with
  | None => None
  | Some c => Some (EStructured (mkStructured (Some c) None fs))
  end.

Definition New (message : string) (fs : list zapcore_Field) : error :=
  EStructured (mkStructured None (Some (EString message)) fs).

Definition Wrap (cause : option error) (message : string)
  (fs : list zapcore_Field) : option error :=
  match cause with
  | None => None
  | Some c => Some (EStructured (mkStructured (Some c) (Some (EString message)) fs))
  end.

(** ** Accessors *)

Definition Unwrap (s : Structured) : option error := causer s.

Definition Cause (s : Structured) : option error := causer s.

(** [error_Error e] is the dynamic call [e.Error()] on a non-nil [e];
    [Structured_Error] is the method [(s Structured) Error()]. *)
Fixpoint error_Error (e : error) : result string :=
  match e with
  | EString es => Ok es
  | EStructured s => Structured_Error s
  | EForeign text _ => Ok text
  end
with Structured_Error (s : Structured) : result string :=
  match s with
  | mkStructured causer err _ =>
      match err with
      | Some e =>
          match causer with
          | None => error_Error e
          | Some c =>
              m <- error_Error e ;;
              t <- error_Error c ;;
              Ok (m ++ ": " ++ t)
          end
      | None =>
          match causer with
          | Some c => error_Error c
          | None => Panic
          end
      end
  end.

(** A method call on a possibly nil interface value. *)
Definition iface_Error (e : option error) : result string :=
  match e with
  | Some e' => error_Error e'
  | None => Panic
  end.

Definition errorOrCause (s : Structured) : result string :=
  match err s with
  | Some e => error_Error e
  | None => iface_Error (causer s)
  end.

(** ** Chain inspection

    [AsStructured_body] is one pass through the body of the [for] loop of
    [AsStructured], from the local [s] and the loop variable [e]:
    [inl s'] leaves the loop with [s = s'], [inr e'] starts the next pass
    with [e = e'].  A type assertion on a nil interface value fails. *)

Definition AsStructured_body (s : Structured) (e : option error)
  : Structured + option error :=
  match e with
  | Some (EStructured stre) => inl stre
  | Some (EForeign _ (Some r)) => inr r
  | _ => inl s
  end.

(** The loop, bounded to [fuel] passes. *)
Fixpoint AsStructured_for (fuel : nat) (s : Structured) (e : option error)
  : result Structured :=
  match fuel with
  | O => OutOfFuel
  | S fuel' =>
      match AsStructured_body s e with
      | inl s' => Ok s'
      | inr e' => AsStructured_for fuel' s e'
      end
  end.

Definition non_nil {A : Type} (o : option A) : bool :=
  match o with
  | Some _ => true
  | None => false
  end.

(** The second result of [AsStructured], on the value of [s]:
    [s.causer != nil || s.err != nil]. *)
Definition nonempty (s : Structured) : bool :=
  non_nil (causer s) || non_nil (err s).

(** [AsStructured] with its loop bounded to [fuel] passes. *)
Definition AsStructured_fuel (fuel : nat) (e : option error)
  : result (Structured * bool) :=
  s <- AsStructured_for fuel zero_Structured e ;;
  Ok (s, nonempty s).

(** The value of [s] when the loop is left, by recursion on the chain:
    values of type [error] are finite, so the chain they start has an
    end ([AsStructured_fuel_complete] relates this to the bounded loop). *)
Fixpoint AsStructured_walk (e : error) : Structured :=
  match e with
  | EStructured stre => stre
  | EForeign _ (Some (Some e')) => AsStructured_walk e'
  | _ => zero_Structured
  end.

Definition AsStructured (e : option error) : Structured * bool :=
  let s := match e with
           | Some e' => AsStructured_walk e'
           | None => zero_Structured
           end in
  (s, nonempty s).

Definition IsStructured (e : option error) : bool :=
  let '(_, found) := AsStructured e in found.

(** Number of passes the loop of [AsStructured] makes from [e]. *)
Fixpoint passes (e : error) : nat :=
  match e with
  | EForeign _ (Some (Some e')) => S (passes e')
  | EForeign _ (Some None) => 2
  | _ => 1
  end.

(** The [wrapper] capability of a value: [None] when its type has no
    [Unwrap] method. *)
Definition unwrap_of (e : error) : option (option error) :=
  match e with
  | EString _ => None
  | EStructured s => Some (Unwrap s)
  | EForeign _ u => u
  end.

(** The unwrap chain of [e]: [e], then what [Unwrap] returns, as long as
    the value has the capability and the result is not nil. *)
Fixpoint chain (e : error) : list error :=
  e :: match e with
       | EStructured (mkStructured (Some c) _ _) => chain c
       | EForeign _ (Some (Some c)) => chain c
       | _ => []
       end.

Fixpoint first_Structured (l : list error) : option Structured :=
  match l with
  | [] => None
  | EStructured s :: _ => Some s
  | _ :: l' => first_Structured l'
  end.

(** ** Field list *)

Definition Fields (s : Structured) : list zapcore_Field :=
  let fs := ([] ++ fields s)%list in
  match Unwrap s with
  | Some cause =>
      match cause with
      | EStructured stre => (fs ++ [zap_Object "cause" stre])%list
      | _ => fs
      end
  | None =>
      let '(stre, ok) := AsStructured (Unwrap s) in
      if ok then (fs ++ [zap_Object "cause" stre])%list else fs
  end.

(** ** Log field *)

Definition Field (e : option error) : zapcore_Field :=
  match e with
  | None => zap_Skip
  | Some e' =>
      let '(stre, ok) := AsStructured e in
      if ok then zap_Object "error" stre else zap_Error e'
  end.

(** ** The encoder interface of zap

    The package imports [go.uber.org/zap]; what follows of it is embedded
    from zap's [zapcore] ([field.go], [encoder.go], [json_encoder.go],
    [entry.go], [level.go]) and from [zap]'s [config.go].

    [zapcore.ObjectEncoder], restricted to the methods that the modelled
    field kinds reach.  [AddObject key m enc] is Go's
    [enc.AddObject(key, marshaler)], with [m] the marshaler's
    [MarshalLogObject]. *)

Class ObjectEncoder (E : Type) : Type := {
  AddString : string -> string -> E -> E;
  AddInt64 : string -> Z -> E -> E;
  AddBool : string -> bool -> E -> E;
  AddObject : string -> (E -> result E) -> E -> result E
}.

(** [zapcore.Field.AddTo]: the switch on the field's type.  [marshal] is
    the [MarshalLogObject] method of an object field's marshaler, and the
    error field is written by zap's [encodeError] as the text of
    [err.Error()] (no modelled error implements [fmt.Formatter]). *)
Definition AddTo {E : Type} `{ObjectEncoder E}
  (marshal : Structured -> E -> result E) (f : zapcore_Field) (enc : E)
  : result E :=
  match f with
  | zap_Skip => Ok enc
  | zap_String key val => Ok (AddString key val enc)
  | zap_Int64 key val => Ok (AddInt64 key val enc)
  | zap_Bool key val => Ok (AddBool key val enc)
  | zap_Object key obj => AddObject key (marshal obj) enc
  | zap_NamedError key e =>
      basic <- error_Error e ;;
      Ok (AddString key basic enc)
  end.

(** [for _, field := range fs { field.AddTo(enc) }] *)
Fixpoint addFields {E : Type} `{ObjectEncoder E}
  (marshal : Structured -> E -> result E) (fs : list zapcore_Field) (enc : E)
  : result E :=
  match fs with
  | [] => Ok enc
  | f :: fs' =>
      enc' <- AddTo marshal f enc ;;
      addFields marshal fs' enc'
  end.

(** ** Object serialization

    [MarshalLogObject] reaches itself through the object fields of
    [s.Fields()]; the model bounds the nesting of these calls by [fuel]
    ([MarshalLogObject_fuel_enough]: the size of [s] is enough). *)
Fixpoint MarshalLogObject {E : Type} `{ObjectEncoder E}
  (fuel : nat) (s : Structured) (oe : E) : result E :=
  match fuel with
  | O => OutOfFuel
  | S fuel' =>
      msg <- errorOrCause s ;;
      addFields (MarshalLogObject fuel') (Fields s) (AddString "msg" msg oe)
  end.

(** Sizes, as a bound on the nesting. *)
Fixpoint size_error (e : error) : nat :=
  match e with
  | EString _ => 1
  | EStructured s => S (size_Structured s)
  | EForeign _ (Some (Some e')) => S (size_error e')
  | EForeign _ _ => 1
  end
with size_Structured (s : Structured) : nat :=
  match s with
  | mkStructured causer err fs =>
      S (match causer with Some c => size_error c | None => 0 end
         + match err with Some e => size_error e | None => 0 end
         + list_sum (map size_Field fs))
  end
with size_Field (f : zapcore_Field) : nat :=
  match f with
  | zap_Object _ obj => S (size_Structured obj)
  | zap_NamedError _ e => S (size_error e)
  | _ => 1
  end.

(** ** A recording encoder

    An [ObjectEncoder] that keeps what it was given, in the order of the
    calls. *)

#[local] Unset Elimination Schemes.
Inductive member : Type :=
| MString (key val : string)
| MInt64 (key : string) (val : Z)
| MBool (key : string) (val : bool)
| MObject (key : string) (members : list member).
#[local] Set Elimination Schemes.

Definition member_key (m : member) : string :=
  match m with
  | MString key _ | MInt64 key _ | MBool key _ | MObject key _ => key
  end.

#[global] Instance recorder : ObjectEncoder (list member) := {
  AddString key val ms := (ms ++ [MString key val])%list;
  AddInt64 key val ms := (ms ++ [MInt64 key val])%list;
  AddBool key val ms := (ms ++ [MBool key val])%list;
  AddObject key m ms :=
    sub <- m [] ;;
    Ok (ms ++ [MObject key sub])%list
}.

(** ** zap's JSON encoder

    The part of [zapcore]'s [jsonEncoder] that [JSON] runs: the buffer,
    the element separator, string escaping and [EncodeEntry]. *)

Definition quote : string := String "034"%char EmptyString.
Definition newline : string := String "010"%char EmptyString.

Fixpoint last_byte (buf : string) : option ascii :=
  match buf with
  | EmptyString => None
  | String c rest =>
      match rest with
      | EmptyString => Some c
      | String _ _ => last_byte rest
      end
  end.

(** The bytes after which [addElementSeparator] adds nothing. *)
Definition is_separator (c : ascii) : bool :=
  (c =? "{")%char || (c =? "[")%char || (c =? ":")%char
  || (c =? ",")%char || (c =? " ")%char.

(** [addElementSeparator]: a comma, unless the buffer is empty or ends
    with an opening brace or bracket, a colon, a comma or a space. *)
Definition addElementSeparator (buf : string) : string :=
  match last_byte buf with
  | None => buf
  | Some c => if is_separator c then buf else buf ++ ","
  end.

Definition hex_digit (n : N) : ascii :=
  match get (N.to_nat n) "0123456789abcdef" with
  | Some c => c
  | None => "0"%char
  end.

(** [tryAddRuneSelf] on a byte below [utf8.RuneSelf]. *)
Definition tryAddRuneSelf (b : ascii) : string :=
  let n := N_of_ascii b in
  if (32 <=? n)%N && negb (b =? "\")%char && negb (b =? "034")%char
  then String b EmptyString
  else if (b =? "\")%char || (b =? "034")%char then String "\" (String b EmptyString)
  else if (b =? "010")%char then "\n"
  else if (b =? "013")%char then "\r"
  else if (b =? "009")%char then "\t"
  else "\u00" ++ String (hex_digit (N.shiftr n 4)) (String (hex_digit (N.land n 15)) EmptyString).

Definition byte_at (s : string) (i : nat) : N :=
  match get i s with
  | Some c => N_of_ascii c
  | None => 0%N
  end.

(** The entry of [utf8]'s table [first] for a byte from 0x80 up: the
    length of the sequence it starts and the range accepted for its second
    byte; [None] for a byte that starts no sequence. *)
Definition utf8_first (s0 : N) : option (nat * N * N) :=
  if (s0 <? 194)%N then None
  else if (s0 <=? 223)%N then Some (2, 128%N, 191%N)
  else if (s0 =? 224)%N then Some (3, 160%N, 191%N)
  else if (s0 <=? 236)%N then Some (3, 128%N, 191%N)
  else if (s0 =? 237)%N then Some (3, 128%N, 159%N)
  else if (s0 <=? 239)%N then Some (3, 128%N, 191%N)
  else if (s0 =? 240)%N then Some (4, 144%N, 191%N)
  else if (s0 <=? 243)%N then Some (4, 128%N, 191%N)
  else if (s0 =? 244)%N then Some (4, 128%N, 143%N)
  else None.

(** The size that [utf8.DecodeRuneInString] returns on a string whose
    first byte is 0x80 or more; the rune is [RuneError] whenever the size
    is 1. *)
Definition DecodeRuneInString_size (s : string) : nat :=
  match utf8_first (byte_at s 0) with
  | None => 1
  | Some (sz, lo, hi) =>
      if (String.length s <? sz)%nat then 1
      else if (byte_at s 1 <? lo)%N || (hi <? byte_at s 1)%N then 1
      else if (sz <=? 2)%nat then 2
      else if (byte_at s 2 <? 128)%N || (191 <? byte_at s 2)%N then 1
      else if (sz <=? 3)%nat then 3
      else if (byte_at s 3 <? 128)%N || (191 <? byte_at s 3)%N then 1
      else 4
  end.

(** [safeAddString]: what the loop over the bytes of [s] appends.
    [pending] counts the bytes still to copy of a multi-byte sequence that
    was accepted. *)
Fixpoint safeAddString_from (pending : nat) (s : string) : string :=
  match s with
  | EmptyString => EmptyString
  | String b rest =>
      match pending with
      | S p => String b (safeAddString_from p rest)
      | O =>
          if (N_of_ascii b <? 128)%N
          then tryAddRuneSelf b ++ safeAddString_from 0 rest
          else
            match DecodeRuneInString_size s with
            | S (S k) => String b (safeAddString_from (S k) rest)
            | _ => "\ufffd" ++ safeAddString_from 0 rest
            end
      end
  end.

Definition safeAddString (s : string) : string := safeAddString_from 0 s.

(** [strconv.AppendInt(_, v, 10)] and [strconv.AppendBool]. *)
Definition AppendInt (v : Z) : string := NilZero.string_of_int (Z.to_int v).
Definition AppendBool_text (v : bool) : string := if v then "true" else "false".

(** The methods of [jsonEncoder], on its buffer ([spaced] is false for
    an encoder made by [NewJSONEncoder]). *)
Definition addKey (key : string) (buf : string) : string :=
  addElementSeparator buf ++ quote ++ safeAddString key ++ quote ++ ":".

Definition AppendString (val : string) (buf : string) : string :=
  addElementSeparator buf ++ quote ++ safeAddString val ++ quote.

Definition AppendInt64 (val : Z) (buf : string) : string :=
  addElementSeparator buf ++ AppendInt val.

Definition AppendBool (val : bool) (buf : string) : string :=
  addElementSeparator buf ++ AppendBool_text val.

Definition AppendObject (m : string -> result string) (buf : string)
  : result string :=
  buf' <- m (addElementSeparator buf ++ "{") ;;
  Ok (buf' ++ "}").

#[global] Instance jsonEncoder : ObjectEncoder string := {
  AddString key val buf := AppendString val (addKey key buf);
  AddInt64 key val buf := AppendInt64 val (addKey key buf);
  AddBool key val buf := AppendBool val (addKey key buf);
  AddObject key m buf := AppendObject m (addKey key buf)
}.

Definition is_empty (s : string) : bool :=
  match s with
  | EmptyString => true
  | String _ _ => false
  end.

(** [zapcore.EncoderConfig]: the keys, the line ending and the value
    encoders that [EncodeEntry] reads.  A value encoder appends to the
    buffer; [EncodeCaller] may be nil. *)
Record EncoderConfig : Type := {
  MessageKey : string;
  LevelKey : string;
  TimeKey : string;
  NameKey : string;
  CallerKey : string;
  StacktraceKey : string;
  LineEnding : string;
  EncodeLevel : Z -> string -> string;
  EncodeTime : Z -> string -> string;
  EncodeCaller : option (string -> string -> string)
}.

(** [zapcore.Entry]: [Time] as nanoseconds, [Caller] as its path when the
    caller is defined. *)
Record Entry : Type := {
  Level : Z;
  Time : Z;
  LoggerName : string;
  Message : string;
  Caller : option string;
  Stack : string
}.

(** [Level.String()] *)
Definition Level_String (l : Z) : string :=
  if (l =? -1)%Z then "debug"
  else if (l =? 0)%Z then "info"
  else if (l =? 1)%Z then "warn"
  else if (l =? 2)%Z then "error"
  else if (l =? 3)%Z then "dpanic"
  else if (l =? 4)%Z then "panic"
  else if (l =? 5)%Z then "fatal"
  else "Level(" ++ AppendInt l ++ ")".

Definition DefaultLineEnding : string := newline.

(** A value written by a configured encoder, with zap's fallback when
    the encoder appended nothing. *)
Definition encoded_or (encode : string -> string)
  (fallback : string -> string) (buf : string) : string :=
  let buf' := encode buf in
  if (String.length buf' =? String.length buf)%nat then fallback buf' else buf'.

(** [(enc *jsonEncoder) EncodeEntry(ent, fields)], for an encoder with
    configuration [cfg] and context buffer [enc_buf]. *)
Definition EncodeEntry (cfg : EncoderConfig) (enc_buf : string)
  (marshal : Structured -> string -> result string)
  (ent : Entry) (fs : list zapcore_Field) : result string :=
  let final := "{" in
  let final :=
    if is_empty (LevelKey cfg) then final
    else encoded_or (EncodeLevel cfg (Level ent))
           (AppendString (Level_String (Level ent)))
           (addKey (LevelKey cfg) final) in
  let final :=
    if is_empty (TimeKey cfg) then final
    else encoded_or (EncodeTime cfg (Time ent)) (AppendInt64 (Time ent))
           (addKey (TimeKey cfg) final) in
  let final :=
    if negb (is_empty (LoggerName ent)) && negb (is_empty (NameKey cfg))
    then AppendString (LoggerName ent) (addKey (NameKey cfg) final)
    else final in
  final <-
    match Caller ent with
    | Some path =>
        if is_empty (CallerKey cfg) then Ok final
        else
          match EncodeCaller cfg with
          | Some encode =>
              Ok (encoded_or (encode path) (AppendString path)
                    (addKey (CallerKey cfg) final))
          | None => Panic
          end
    | None => Ok final
    end ;;
  let final :=
    if is_empty (MessageKey cfg) then final
    else AppendString (Message ent) (addKey (MessageKey cfg) final) in
  let final :=
    if (0 <? String.length enc_buf)%nat
    then addElementSeparator final ++ enc_buf
    else final in
  final <- addFields marshal fs final ;;
  let final :=
    if negb (is_empty (Stack ent)) && negb (is_empty (StacktraceKey cfg))
    then AppendString (Stack ent) (addKey (StacktraceKey cfg) final)
    else final in
  let final := final ++ "}" in
  Ok (if negb (is_empty (LineEnding cfg))
      then final ++ LineEnding cfg
      else final ++ DefaultLineEnding).

(** [zapcore.LowercaseLevelEncoder] and [zapcore.ShortCallerEncoder]
    append a string.  [zapcore.EpochTimeEncoder] appends the time in
    seconds as a floating-point number, which is outside this embedding:
    [EpochTimeEncoder] here writes the whole seconds.  [jsonEncConf] has an
    empty [TimeKey], and [EncodeEntry_blank_keys] shows that the output
    then does not depend on any of the value encoders. *)
Definition LowercaseLevelEncoder (l : Z) (buf : string) : string :=
  AppendString (Level_String l) buf.
Definition EpochTimeEncoder (t : Z) (buf : string) : string :=
  AppendInt64 (t / 1000000000) buf.
Definition ShortCallerEncoder (path : string) (buf : string) : string :=
  AppendString path buf.

(** [zap.NewProductionEncoderConfig()] *)
Definition NewProductionEncoderConfig : EncoderConfig := {|
  MessageKey := "msg";
  LevelKey := "level";
  TimeKey := "ts";
  NameKey := "logger";
  CallerKey := "caller";
  StacktraceKey := "stacktrace";
  LineEnding := DefaultLineEnding;
  EncodeLevel := LowercaseLevelEncoder;
  EncodeTime := EpochTimeEncoder;
  EncodeCaller := Some ShortCallerEncoder
|}.

(** [jsonEncConf] after [init()]. *)
Definition jsonEncConf : EncoderConfig := {|
  MessageKey := MessageKey NewProductionEncoderConfig;
  LevelKey := EmptyString;
  TimeKey := EmptyString;
  NameKey := EmptyString;
  CallerKey := EmptyString;
  StacktraceKey := EmptyString;
  LineEnding := LineEnding NewProductionEncoderConfig;
  EncodeLevel := EncodeLevel NewProductionEncoderConfig;
  EncodeTime := EncodeTime NewProductionEncoderConfig;
  EncodeCaller := None
|}.

(** ** JSON *)

(** [zapcore.Entry{Message: s.errorOrCause()}]: every other field has its
    zero value. *)
Definition entry (s : Structured) : result (Entry * list zapcore_Field) :=
  msg <- errorOrCause s ;;
  Ok ({| Level := 0; Time := 0; LoggerName := EmptyString; Message := msg;
         Caller := None; Stack := EmptyString |}, Fields s).

(** [JSONBuffer], [MarshalJSON] and [JSON], with the nesting of the
    [MarshalLogObject] calls of the object fields bounded by [fuel].
    [NewJSONEncoder] makes an encoder with an empty context buffer;
    [MarshalJSON] copies the bytes of the buffer. *)
Definition JSONBuffer_fuel (fuel : nat) (s : Structured) : result string :=
  p <- entry s ;;
  EncodeEntry jsonEncConf EmptyString (MarshalLogObject fuel) (fst p) (snd p).

Definition MarshalJSON_fuel (fuel : nat) (s : Structured) : result string :=
  JSONBuffer_fuel fuel s.

Definition JSON_fuel (fuel : nat) (s : Structured) : result string :=
  MarshalJSON_fuel fuel s.

Definition JSON (s : Structured) : result string :=
  JSON_fuel (size_Structured s) s.

(** ** The serialized object, as a document

    [object_members s] is the content of the object that stands for [s]:
    the member [msg], then the members of the context fields of [s] in
    their order, then a member [cause] holding the object of the cause
    when the cause is a [Structured].  It is defined by recursion on [s],
    with no encoder and no bound. *)

Definition collect {A B : Type} (f : A -> result (list B))
  : list A -> result (list B) :=
  fix go (l : list A) : result (list B) :=
    match l with
    | [] => Ok []
    | a :: l' =>
        b <- f a ;;
        bs <- go l' ;;
        Ok (b ++ bs)%list
    end.

Fixpoint object_members (s : Structured) : result (list member) :=
  match s with
  | mkStructured causer err fs =>
      msg <- match err with
             | Some e => error_Error e
             | None => iface_Error causer
             end ;;
      own <- collect field_members fs ;;
      cause <- match causer with
               | Some (EStructured c) =>
                   sub <- object_members c ;;
                   Ok [MObject "cause" sub]
               | _ => Ok []
               end ;;
      Ok (MString "msg" msg :: own ++ cause)%list
  end
with field_members (f : zapcore_Field) : result (list member) :=
  match f with
  | zap_Skip => Ok []
  | zap_String key val => Ok [MString key val]
  | zap_Int64 key val => Ok [MInt64 key val]
  | zap_Bool key val => Ok [MBool key val]
  | zap_Object key obj =>
      sub <- object_members obj ;;
      Ok [MObject key sub]
  | zap_NamedError key e =>
      basic <- error_Error e ;;
      Ok [MString key basic]
  end.

(** The JSON text of a member and of an object: members separated by
    commas, keys and string values quoted and escaped. *)
Definition concat_all (l : list string) : string :=
  fold_right append EmptyString l.

Definition join_comma (l : list string) : string :=
  match l with
  | [] => EmptyString
  | x :: l' => x ++ concat_all (map (fun y => "," ++ y) l')
  end.

Definition json_key (key : string) : string :=
  quote ++ safeAddString key ++ quote ++ ":".

Fixpoint render_member (m : member) : string :=
  match m with
  | MString key val => json_key key ++ quote ++ safeAddString val ++ quote
  | MInt64 key val => json_key key ++ AppendInt val
  | MBool key val => json_key key ++ AppendBool_text val
  | MObject key ms =>
      json_key key ++ "{" ++ join_comma (map render_member ms) ++ "}"
  end.

Definition render_object (ms : list member) : string :=
  "{" ++ join_comma (map render_member ms) ++ "}".

(** A buffer that ends with a value: the next element takes a comma. *)
Definition ends_value (buf : string) : bool :=
  match last_byte buf with
  | Some c => negb (is_separator c)
  | None => false
  end.

(** A member appended to the buffer of the JSON encoder. *)
Definition json_put (m : member) (buf : string) : string :=
  addElementSeparator buf ++ render_member m.

(** Writing a member through an encoder: the calls that [AddTo] makes
    for it. *)
Class MemberEncoder (E : Type) `{ObjectEncoder E} : Type := {
  put : member -> E -> E;
  put_String : forall key val enc, AddString key val enc = put (MString key val) enc;
  put_Int64 : forall key val enc, AddInt64 key val enc = put (MInt64 key val) enc;
  put_Bool : forall key val enc, AddBool key val enc = put (MBool key val) enc;
  put_Object :
    forall key (m : E -> result E) (r : result (list member)),
      (forall enc0, m enc0 = (ms <- r ;; Ok (fold_left (fun e x => put x e) ms enc0))) ->
      forall enc, AddObject key m enc = (ms <- r ;; Ok (put (MObject key ms) enc))
}.

Definition put_all {E : Type} `{MemberEncoder E} (ms : list member) (enc : E) : E :=
  fold_left (fun e x => put x e) ms enc.

(** JSON text written with single quotes for double quotes. *)
Fixpoint json_text (s : string) : string :=
  match s with
  | EmptyString => EmptyString
  | String c rest =>
      String (if (c =? "'")%char then "034"%char else c) (json_text rest)
  end.

(** [Wrap] applied once for each message of [ms], the first one
    outermost, over [base]. *)
Fixpoint wrap_all (ms : list string) (base : error) : error :=
  match ms with
  | [] => base
  | m :: ms' =>
      EStructured (mkStructured (Some (wrap_all ms' base)) (Some (EString m)) [])
  end.

Definition join_colon (ms : list string) (last : string) : string :=
  fold_right (fun m acc => m ++ ": " ++ acc) last ms.

(** The keys that the fields of a list write, in their order: the no-op
    field writes none. *)
Definition field_key (f : zapcore_Field) : list string :=
  match f with
  | zap_Skip => []
  | zap_String key _ | zap_Int64 key _ | zap_Bool key _
  | zap_Object key _ | zap_NamedError key _ => [key]
  end.

Definition field_keys (fs : list zapcore_Field) : list string :=
  flat_map field_key fs.

Definition cause_key (s : Structured) : list string :=
  match causer s with
  | Some (EStructured _) => ["cause"]
  | _ => []
  end.

(** ** Errors built with the constructors

    A tower of calls of [Wrap] and [Structure], the first layer
    outermost, as in [Wrap(Structure(base, ...), "m", ...)]. *)
Inductive layer : Type :=
| LWrap (message : string) (fs : list zapcore_Field)
| LStructure (fs : list zapcore_Field).

Fixpoint apply_layers (ls : list layer) (base : option error) : option error :=
  match ls with
  | [] => base
  | LWrap message fs :: ls' => Wrap (apply_layers ls' base) message fs
  | LStructure fs :: ls' => Structure (apply_layers ls' base) fs
  end.

Definition layer_messages (ls : list layer) : list string :=
  flat_map (fun l => match l with
                     | LWrap message _ => [message]
                     | LStructure _ => []
                     end) ls.

(** [e] inside foreign errors that unwrap to one another, the first
    text outermost. *)
Fixpoint foreign_wrap (ts : list string) (e : error) : error :=
  match ts with
  | [] => e
  | t :: ts' => EForeign t (Some (Some (foreign_wrap ts' e)))
  end.

(** Fields that hold no marshaler and no error. *)
Definition plain_field (f : zapcore_Field) : bool :=
  match f with
  | zap_Object _ _ | zap_NamedError _ _ => false
  | _ => true
  end.

(** The errors that [New], [Wrap] and [Structure] make with plain fields,
    over [String]s and foreign errors. *)
Inductive from_constructors : error -> Prop :=
| fc_String (es : string) : from_constructors (EString es)
| fc_foreign (text : string) (unwrap : option (option error)) :
    from_constructors (EForeign text unwrap)
| fc_New (message : string) (fs : list zapcore_Field) :
    forallb plain_field fs = true ->
    from_constructors (New message fs)
| fc_Wrap (cause : error) (message : string) (fs : list zapcore_Field)
          (e : error) :
    from_constructors cause ->
    forallb plain_field fs = true ->
    Wrap (Some cause) message fs = Some e ->
    from_constructors e
| fc_Structure (cause : error) (fs : list zapcore_Field) (e : error) :
    from_constructors cause ->
    forallb plain_field fs = true ->
    Structure (Some cause) fs = Some e ->
    from_constructors e.

(** ** A log line

    The entry that zap's [Logger.Error(msg, fields...)] hands to the
    encoder of its core, for a logger that has no name and adds neither
    caller nor stack trace, as the one [zap.NewExample()] makes: the level
    is [zapcore.ErrorLevel] and [now] is the time of the call. *)
Definition Logger_Error_entry (msg : string) (now : Z) : Entry := {|
  Level := 2;
  Time := now;
  LoggerName := EmptyString;
  Message := msg;
  Caller := None;
  Stack := EmptyString
|}.

(** * Properties *)

(** ** Induction along the unwrap chain *)

Lemma error_unwrap_ind (P : error -> Prop)
  (step : forall e, (forall c, unwrap_of e = Some (Some c) -> P c) -> P e) :
  forall e, P e.
Proof.
  fix IH 1.
  intros e. apply step.
  destruct e as [es | [c er fs] | t u]; simpl; intros c' Hc.
  - discriminate Hc.
  - destruct c as [c0|]; [|discriminate Hc].
    injection Hc as <-. apply IH.
  - destruct u as [[c0|]|]; try discriminate Hc.
    injection Hc as <-. apply IH.
Qed.

Lemma chain_unfold (e : error) :
  chain e = e :: match unwrap_of e with
                 | Some (Some c) => chain c
                 | _ => []
                 end.
Proof.
  destruct e as [es | [c er fs] | t u]; reflexivity.
Qed.

Lemma bind_Ok {A B : Type} (a : A) (k : A -> result B) :
  (x <- Ok a ;; k x) = k a.
Proof. reflexivity. Qed.

Lemma bind_ret {A : Type} (r : result A) : (x <- r ;; Ok x) = r.
Proof. destruct r; reflexivity. Qed.

Lemma bind_assoc {A B C : Type} (r : result A) (k : A -> result B)
  (h : B -> result C) :
  (y <- (x <- r ;; k x) ;; h y) = (x <- r ;; y <- k x ;; h y).
Proof. destruct r; reflexivity. Qed.

(** ** Constructors and accessors *)

(** C2. [Structure] and [Wrap] return nil on a nil cause, whatever the
    message and the fields; on a non-nil cause both return a non-nil
    [Structured] whose cause is that error. *)
Theorem Structure_Wrap_nil_propagation :
  forall (message : string) (fs : list zapcore_Field),
    Structure None fs = None /\
    Wrap None message fs = None /\
    forall cause : error,
      (exists s, Structure (Some cause) fs = Some (EStructured s)
                 /\ causer s = Some cause /\ fields s = fs) /\
      (exists s, Wrap (Some cause) message fs = Some (EStructured s)
                 /\ causer s = Some cause /\ fields s = fs).
Proof.
  intros message fs.
  split; [reflexivity|]. split; [reflexivity|].
  intros cause. split.
  - exists (mkStructured (Some cause) None fs). repeat split.
  - exists (mkStructured (Some cause) (Some (EString message)) fs).
    repeat split.
Qed.

(** C4. For a non-nil [cause] and any fields, the result of
    [Structure(cause, fields...)] unwraps to [cause], and its [Error()]
    is the [Error()] of [cause], unchanged. *)
Theorem Structure_Unwrap_Error :
  forall (cause : error) (fs : list zapcore_Field),
    exists s,
      Structure (Some cause) fs = Some (EStructured s) /\
      Unwrap s = Some cause /\
      Structured_Error s = error_Error cause /\
      iface_Error (Structure (Some cause) fs) = error_Error cause.
Proof.
  intros cause fs.
  exists (mkStructured (Some cause) None fs). repeat split.
Qed.

(** C10. [Cause()] and [Unwrap()] return the same error for every
    [Structured]. *)
Theorem Cause_eq_Unwrap : forall s : Structured, Cause s = Unwrap s.
Proof. intros s. reflexivity. Qed.

Lemma Wrap_wrap_all (m : string) (ms : list string) (base : error) :
  Wrap (Some (wrap_all ms base)) m [] = Some (wrap_all (m :: ms) base).
Proof. reflexivity. Qed.

Lemma Error_wrap_all (ms : list string) (base : error) (t : string) :
  error_Error base = Ok t ->
  error_Error (wrap_all ms base) = Ok (join_colon ms t).
Proof.
  intros Hbase. induction ms as [|m ms IH]; simpl.
  - exact Hbase.
  - simpl in IH. rewrite IH. reflexivity.
Qed.

(** C3. [Error()] of a [Structured]: the own message alone when there is
    no cause; the own message, a colon and a space, then the [Error()] of
    the cause when both are set; the [Error()] of the cause, unchanged,
    when there is no own message.  The cause's [Error()] is its full
    display string: a tower of [Wrap]s over [New] gives the messages joined
    by colon and space, and wrapping [New("a")] with "b" and then "c"
    gives "c: b: a". *)
Theorem Error_display_string :
  (forall e fs,
      Structured_Error (mkStructured None (Some e) fs) = error_Error e) /\
  (forall c e fs,
      Structured_Error (mkStructured (Some c) (Some e) fs)
      = (m <- error_Error e ;; t <- error_Error c ;; Ok (m ++ ": " ++ t))) /\
  (forall c fs,
      Structured_Error (mkStructured (Some c) None fs) = error_Error c) /\
  (forall message fs, error_Error (New message fs) = Ok message) /\
  (forall c message fs,
      iface_Error (Wrap (Some c) message fs)
      = (t <- error_Error c ;; Ok (message ++ ": " ++ t))) /\
  (forall ms a fs,
      error_Error (wrap_all ms (New a fs)) = Ok (join_colon ms a)) /\
  iface_Error (Wrap (Wrap (Some (New "a" [])) "b" []) "c" []) = Ok "c: b: a".
Proof.
  repeat split.
  intros ms a fs. apply Error_wrap_all. reflexivity.
Qed.

(** ** Chain inspection *)

Lemma AsStructured_for_walk (e : error) :
  forall k, AsStructured_for (passes e + k) zero_Structured (Some e)
            = Ok (AsStructured_walk e).
Proof.
  induction e as [e IH] using error_unwrap_ind. intros k.
  destruct e as [es | s | t [[c|]|]]; simpl; try reflexivity.
  apply IH. reflexivity.
Qed.

Lemma AsStructured_for_short (e : error) :
  forall fuel, fuel < passes e ->
               AsStructured_for fuel zero_Structured (Some e) = OutOfFuel.
Proof.
  induction e as [e IH] using error_unwrap_ind. intros fuel Hlt.
  destruct fuel as [|fuel]; [reflexivity|].
  destruct e as [es | s | t [[c|]|]]; simpl in *; try lia.
  - apply IH; [reflexivity | lia].
  - destruct fuel; [reflexivity | lia].
Qed.

Lemma AsStructured_walk_first (e : error) :
  AsStructured_walk e = match first_Structured (chain e) with
                        | Some s => s
                        | None => zero_Structured
                        end.
Proof.
  induction e as [e IH] using error_unwrap_ind.
  rewrite chain_unfold.
  destruct e as [es | s | t [[c|]|]]; simpl; try reflexivity.
  apply IH. reflexivity.
Qed.

Lemma first_Structured_In (l : list error) (s : Structured) :
  first_Structured l = Some s -> In (EStructured s) l.
Proof.
  induction l as [|x l IH]; simpl; [discriminate|].
  destruct x; intros H; try (right; apply IH; exact H).
  injection H as ->. left. reflexivity.
Qed.

Lemma In_chain_first (e : error) (s : Structured) :
  In (EStructured s) (chain e) -> exists s1, first_Structured (chain e) = Some s1.
Proof.
  generalize (chain e). intros l. induction l as [|x l IH]; simpl; [tauto|].
  intros [Hx | Hin].
  - subst x. eexists. reflexivity.
  - destruct x; try (apply IH; exact Hin). eexists. reflexivity.
Qed.

(** A [Structured] that has no cause ends the chain it is on: when it is
    the first one of the chain, it is the only one. *)
Lemma first_without_cause_only (e : error) (s1 : Structured) :
  first_Structured (chain e) = Some s1 -> causer s1 = None ->
  forall s, In (EStructured s) (chain e) -> s = s1.
Proof.
  induction e as [e IH] using error_unwrap_ind.
  rewrite chain_unfold. intros Hfirst Hcause s Hin.
  destruct e as [es | s0 | t u]; simpl in *.
  - discriminate Hfirst.
  - injection Hfirst as ->. unfold Unwrap in Hin. rewrite Hcause in Hin.
    destruct Hin as [Heq | []]. injection Heq as ->. reflexivity.
  - destruct u as [[c|]|]; try discriminate Hfirst.
    destruct Hin as [Heq | Hin]; [discriminate Heq|].
    apply (IH c eq_refl Hfirst Hcause s Hin).
Qed.

Lemma nonempty_false (s : Structured) :
  nonempty s = false <-> causer s = None /\ err s = None.
Proof.
  unfold nonempty.
  destruct (causer s), (err s); simpl; split; intros H;
    solve [ discriminate H | reflexivity | split; reflexivity
          | destruct H; discriminate ].
Qed.

Lemma AsStructured_found_iff (e : error) :
  snd (AsStructured (Some e)) = true
  <-> exists s, In (EStructured s) (chain e) /\ nonempty s = true.
Proof.
  unfold AsStructured. simpl. rewrite AsStructured_walk_first. split.
  - destruct (first_Structured (chain e)) as [s1|] eqn:Hfirst.
    + intros Hne. exists s1. split; [|exact Hne].
      apply first_Structured_In. exact Hfirst.
    + intros Hne. discriminate Hne.
  - intros [s [Hin Hne]].
    destruct (In_chain_first e s Hin) as [s1 Hfirst]. rewrite Hfirst.
    destruct (nonempty s1) eqn:Hs1; [reflexivity|].
    assert (Hc : causer s1 = None) by (apply nonempty_false; exact Hs1).
    rewrite (first_without_cause_only e s1 Hfirst Hc s Hin) in Hne.
    congruence.
Qed.

Lemma AsStructured_fuel_complete (e : error) (k : nat) :
  AsStructured_fuel (passes e + k) (Some e) = Ok (AsStructured (Some e)).
Proof.
  unfold AsStructured_fuel. rewrite AsStructured_for_walk. reflexivity.
Qed.

Lemma AsStructured_nil :
  AsStructured None = (zero_Structured, false) /\
  forall k, AsStructured_fuel (1 + k) None = Ok (zero_Structured, false).
Proof. split; reflexivity. Qed.

(** C7, as the code has it.  On every error [e] (a value of type [error]
    starts a finite chain) the loop of [AsStructured] ends after
    [passes e] passes.  It returns the first [Structured] of the chain,
    with [found] true exactly when that one has an own message or a
    cause, and the zero [Structured] with [found] false when the chain
    holds no [Structured].  [found] is true exactly when the chain holds a
    [Structured] with an own message or a cause, and [IsStructured] is that
    flag. *)
Theorem AsStructured_first_in_chain :
  forall e : error,
    (forall k, AsStructured_fuel (passes e + k) (Some e)
               = Ok (AsStructured (Some e))) /\
    AsStructured (Some e)
    = match first_Structured (chain e) with
      | Some s => (s, nonempty s)
      | None => (zero_Structured, false)
      end /\
    (snd (AsStructured (Some e)) = true
     <-> exists s, In (EStructured s) (chain e) /\ nonempty s = true) /\
    IsStructured (Some e) = snd (AsStructured (Some e)).
Proof.
  intros e. split; [|split; [|split]].
  - intros k. apply AsStructured_fuel_complete.
  - unfold AsStructured. rewrite AsStructured_walk_first.
    destruct (first_Structured (chain e)); reflexivity.
  - apply AsStructured_found_iff.
  - reflexivity.
Qed.

(** C7 as stated fails on the zero [Structured]: it is the first
    [Structured] of its own chain, and [found] is false. *)
Lemma AsStructured_zero_not_found :
  first_Structured (chain (EStructured zero_Structured)) = Some zero_Structured /\
  AsStructured_fuel 1 (Some (EStructured zero_Structured))
  = Ok (zero_Structured, false) /\
  ~ (forall e s, first_Structured (chain e) = Some s ->
                 AsStructured (Some e) = (s, true)).
Proof.
  split; [reflexivity|]. split; [reflexivity|].
  intros H.
  specialize (H (EStructured zero_Structured) zero_Structured eq_refl).
  discriminate H.
Qed.

(** C8. A [Structured] with neither an own message nor a cause is
    reported as not found: when it is the inspected error itself, and
    when it is the first [Structured] that the chain of the inspected
    error reaches. *)
Theorem AsStructured_empty_not_found :
  forall s : Structured,
    causer s = None -> err s = None ->
    AsStructured (Some (EStructured s)) = (s, false) /\
    IsStructured (Some (EStructured s)) = false /\
    (forall k, AsStructured_fuel (1 + k) (Some (EStructured s)) = Ok (s, false)) /\
    (forall e, first_Structured (chain e) = Some s ->
               AsStructured (Some e) = (s, false) /\ IsStructured (Some e) = false).
Proof.
  intros s Hc He.
  assert (Hne : nonempty s = false) by (apply nonempty_false; split; assumption).
  assert (Hchain : forall e, first_Structured (chain e) = Some s ->
                             AsStructured (Some e) = (s, false)).
  { intros e Hfirst. unfold AsStructured.
    rewrite AsStructured_walk_first, Hfirst, Hne. reflexivity. }
  split; [|split; [|split]].
  - apply Hchain. reflexivity.
  - unfold IsStructured. rewrite Hchain; reflexivity.
  - intros k. change (1 + k) with (passes (EStructured s) + k).
    rewrite AsStructured_fuel_complete. f_equal. apply Hchain. reflexivity.
  - intros e Hfirst. split; [apply Hchain; exact Hfirst|].
    unfold IsStructured. rewrite Hchain; [reflexivity | exact Hfirst].
Qed.

Lemma AsStructured_empty_not_found_witness :
  let s := mkStructured None None [zap_Int "code" 1234] in
  AsStructured (Some (EStructured s)) = (s, false) /\
  IsStructured (Some (EStructured s)) = false /\
  (forall k, AsStructured_fuel (1 + k) (Some (EStructured s)) = Ok (s, false)) /\
  (forall e, first_Structured (chain e) = Some s ->
             AsStructured (Some e) = (s, false) /\ IsStructured (Some e) = false).
Proof.
  apply (AsStructured_empty_not_found
           (mkStructured None None [zap_Int "code" 1234])); reflexivity.
Defined.

(** ** Field list *)

Lemma Fields_eq (s : Structured) :
  Fields s = (fields s ++ match causer s with
                          | Some (EStructured stre) => [zap_Object "cause" stre]
                          | _ => []
                          end)%list.
Proof.
  destruct s as [[c|] e fs]; unfold Fields; simpl.
  - destruct c; simpl; try reflexivity; rewrite app_nil_r; reflexivity.
  - rewrite app_nil_r. reflexivity.
Qed.

(** A cause that is not itself a [Structured] adds no field, whatever
    its chain holds: the search of the chain is not reached. *)
Lemma Fields_cause_not_Structured (s : Structured) (c : error) :
  causer s = Some c -> (forall stre, c <> EStructured stre) ->
  Fields s = fields s.
Proof.
  intros Hc Hns. rewrite Fields_eq, Hc.
  destruct c as [es | stre | t u]; try apply app_nil_r.
  exfalso. apply (Hns stre). reflexivity.
Qed.

(** C1 fails on the code.  The cause of [s] is a foreign error that
    unwraps to a [Structured]; [AsStructured] finds it on the chain of the
    cause, and [Fields s] holds the own field of [s] only. *)
Lemma Fields_foreign_cause_not_searched :
  let inner := mkStructured None (Some (EString "inner")) [zap_Int "code" 1234] in
  let foreign := EForeign "foreign: inner" (Some (Some (EStructured inner))) in
  let s := mkStructured (Some foreign) (Some (EString "outer"))
             [zap_String "addr" "x"] in
  Wrap (Some foreign) "outer" [zap_String "addr" "x"] = Some (EStructured s) /\
  AsStructured (Some foreign) = (inner, true) /\
  Fields s = [zap_String "addr" "x"].
Proof. repeat split. Qed.

(** ** Log field *)

(** C9, as the code has it.  [Field(nil)] is the no-op field, which
    leaves every encoder as it was.  On a non-nil [e], [Field] is an object
    field under the key "error" holding the first [Structured] of the
    chain of [e] when that one has an own message or a cause; otherwise
    (no [Structured] on the chain, or an empty one first) it is the error
    field of [e], which is written as the text of [e.Error()]. *)
Theorem Field_by_chain :
  Field None = zap_Skip /\
  (forall (E : Type) (enc_E : ObjectEncoder E) marshal (enc : E),
      AddTo marshal zap_Skip enc = Ok enc) /\
  (forall e : error,
      Field (Some e)
      = match first_Structured (chain e) with
        | Some s => if nonempty s then zap_Object "error" s else zap_Error e
        | None => zap_Error e
        end) /\
  (forall (e : error) (E : Type) (enc_E : ObjectEncoder E) marshal (enc : E),
      AddTo marshal (zap_Error e) enc
      = (text <- error_Error e ;; Ok (AddString "error" text enc))).
Proof.
  split; [reflexivity|]. split; [reflexivity|]. split; [|reflexivity].
  intros e. unfold Field, AsStructured.
  rewrite AsStructured_walk_first.
  destruct (first_Structured (chain e)) as [s|]; reflexivity.
Qed.

(** C9 as stated fails on the zero [Structured]: the error is a
    [Structured], and [Field] is its error field, not an object field. *)
Lemma Field_zero_Structured :
  first_Structured (chain (EStructured zero_Structured)) = Some zero_Structured /\
  Field (Some (EStructured zero_Structured)) = zap_Error (EStructured zero_Structured) /\
  ~ (forall e s, first_Structured (chain e) = Some s ->
                 Field (Some e) = zap_Object "error" s).
Proof.
  split; [reflexivity|]. split; [reflexivity|].
  intros H.
  specialize (H (EStructured zero_Structured) zero_Structured eq_refl).
  discriminate H.
Qed.

(** ** Object serialization *)

Lemma collect_app {A B : Type} (f : A -> result (list B)) (l1 l2 : list A) :
  collect f (l1 ++ l2)
  = (a <- collect f l1 ;; b <- collect f l2 ;; Ok (a ++ b)%list).
Proof.
  induction l1 as [|x l1 IH]; simpl.
  - destruct (collect f l2); reflexivity.
  - destruct (f x) as [b| |]; simpl; try reflexivity.
    rewrite IH.
    destruct (collect f l1) as [a| |]; simpl; try reflexivity.
    destruct (collect f l2) as [c| |]; simpl; try reflexivity.
    rewrite app_assoc. reflexivity.
Qed.

(** [object_members], by way of [errorOrCause] and [Fields]. *)
Lemma object_members_Fields (s : Structured) :
  object_members s
  = (msg <- errorOrCause s ;;
     ms <- collect field_members (Fields s) ;;
     Ok (MString "msg" msg :: ms)).
Proof.
  rewrite Fields_eq, collect_app.
  destruct s as [c e fs]. unfold errorOrCause. simpl.
  destruct (match e with Some e0 => error_Error e0 | None => iface_Error c end)
    as [msg| |]; simpl; try reflexivity.
  destruct (collect field_members fs) as [own| |]; simpl; try reflexivity.
  destruct c as [[es | stre | t u]|]; simpl; try reflexivity.
  destruct (object_members stre) as [sub| |]; reflexivity.
Qed.

Lemma size_Field_In (f : zapcore_Field) (fs : list zapcore_Field) :
  In f fs -> size_Field f <= list_sum (map size_Field fs).
Proof.
  induction fs as [|x fs IH]; simpl; [tauto|].
  intros [-> | Hin]; [lia|]. specialize (IH Hin). lia.
Qed.

Lemma size_Fields (s : Structured) (f : zapcore_Field) :
  In f (Fields s) -> size_Field f < size_Structured s.
Proof.
  rewrite Fields_eq. destruct s as [c e fs]. simpl. intros Hin.
  apply in_app_or in Hin. destruct Hin as [Hin | Hin].
  - apply size_Field_In in Hin. lia.
  - destruct c as [[es | stre | t u]|]; simpl in Hin; try tauto.
    destruct Hin as [<- | []]. simpl. lia.
Qed.

Section Members.
Context {E : Type} {enc_E : ObjectEncoder E} {mem_E : MemberEncoder E}.

Lemma put_all_app (ms1 ms2 : list member) (enc : E) :
  put_all (ms1 ++ ms2) enc = put_all ms2 (put_all ms1 enc).
Proof. apply fold_left_app. Qed.

(** What [AddTo] does for one field, given what the marshaler of the
    object fields does. *)
Lemma AddTo_members (marshal : Structured -> E -> result E) (n : nat) :
  (forall o enc, size_Structured o <= n ->
                 marshal o enc = (ms <- object_members o ;; Ok (put_all ms enc))) ->
  forall f enc, size_Field f <= S n ->
                AddTo marshal f enc
                = (ms <- field_members f ;; Ok (put_all ms enc)).
Proof.
  intros Hm f enc Hsize.
  destruct f as [| key val | key val | key val | key obj | key e]; simpl.
  - reflexivity.
  - rewrite put_String. reflexivity.
  - rewrite put_Int64. reflexivity.
  - rewrite put_Bool. reflexivity.
  - rewrite (put_Object key (marshal obj) (object_members obj)).
    + destruct (object_members obj); reflexivity.
    + intros enc0. apply Hm. simpl in Hsize. lia.
  - destruct (error_Error e); simpl; try reflexivity.
    rewrite put_String. reflexivity.
Qed.

Lemma addFields_members (marshal : Structured -> E -> result E) (n : nat) :
  (forall o enc, size_Structured o <= n ->
                 marshal o enc = (ms <- object_members o ;; Ok (put_all ms enc))) ->
  forall fs, (forall f, In f fs -> size_Field f <= S n) ->
  forall enc, addFields marshal fs enc
              = (ms <- collect field_members fs ;; Ok (put_all ms enc)).
Proof.
  intros Hm fs. induction fs as [|f fs IH]; intros Hsize enc; simpl.
  - reflexivity.
  - rewrite (AddTo_members marshal n Hm) by (apply Hsize; left; reflexivity).
    destruct (field_members f) as [ms1| |]; simpl; try reflexivity.
    rewrite IH by (intros g Hg; apply Hsize; right; exact Hg).
    destruct (collect field_members fs) as [ms2| |]; simpl; try reflexivity.
    rewrite put_all_app. reflexivity.
Qed.

(** With [fuel] at least the size of [s], [MarshalLogObject] writes the
    members of [object_members s], in their order, and panics exactly
    when [object_members s] does. *)
Lemma MarshalLogObject_members (fuel : nat) :
  forall s enc, size_Structured s <= fuel ->
                MarshalLogObject fuel s enc
                = (ms <- object_members s ;; Ok (put_all ms enc)).
Proof.
  induction fuel as [|fuel IH]; intros s enc Hsize.
  - destruct s. simpl in Hsize. lia.
  - simpl. rewrite object_members_Fields.
    destruct (errorOrCause s) as [msg| |]; simpl; try reflexivity.
    rewrite (addFields_members (MarshalLogObject fuel) fuel IH).
    + destruct (collect field_members (Fields s)); simpl; try reflexivity.
      unfold put_all. simpl. rewrite put_String. reflexivity.
    + intros f Hin. apply size_Fields in Hin. lia.
Qed.

(** More fuel than the size changes nothing. *)
Lemma MarshalLogObject_fuel_enough (s : Structured) (k : nat) (enc : E) :
  MarshalLogObject (size_Structured s + k) s enc
  = MarshalLogObject (size_Structured s) s enc.
Proof.
  rewrite !MarshalLogObject_members by lia. reflexivity.
Qed.
End Members.

(** ** The recording encoder writes members *)

Lemma fold_left_snoc {A : Type} (l acc : list A) :
  fold_left (fun e x => (e ++ [x])%list) l acc = (acc ++ l)%list.
Proof.
  revert acc. induction l as [|x l IH]; intros acc; simpl.
  - symmetry. apply app_nil_r.
  - rewrite IH, <- app_assoc. reflexivity.
Qed.

Lemma recorder_put_Object (key : string)
  (m : list member -> result (list member)) (r : result (list member)) :
  (forall enc0,
      m enc0 = (ms <- r ;; Ok (fold_left (fun e x => (e ++ [x])%list) ms enc0))) ->
  forall enc,
    AddObject key m enc = (ms <- r ;; Ok (enc ++ [MObject key ms])%list).
Proof.
  intros Hm enc. simpl. rewrite Hm.
  destruct r as [ms| |]; simpl; try reflexivity.
  rewrite fold_left_snoc. reflexivity.
Qed.

#[global] Instance recorder_members : MemberEncoder (list member) := {|
  put := fun x ms => (ms ++ [x])%list;
  put_String := fun _ _ _ => eq_refl;
  put_Int64 := fun _ _ _ => eq_refl;
  put_Bool := fun _ _ _ => eq_refl;
  put_Object := recorder_put_Object
|}.

Lemma recorder_put_all (ms tr : list member) :
  put_all ms tr = (tr ++ ms)%list.
Proof. apply fold_left_snoc. Qed.

(** ** The JSON encoder writes members *)

Lemma append_assoc (a b c : string) : (a ++ b) ++ c = a ++ (b ++ c).
Proof.
  induction a as [|x a IH]; simpl; [reflexivity|]. rewrite IH. reflexivity.
Qed.

Lemma append_nil_r (a : string) : a ++ EmptyString = a.
Proof.
  induction a as [|x a IH]; simpl; [reflexivity|]. rewrite IH. reflexivity.
Qed.

Lemma last_byte_nonempty (c : ascii) (s : string) :
  exists d, last_byte (String c s) = Some d.
Proof.
  revert c. induction s as [|x s IH]; intros c.
  - exists c. reflexivity.
  - destruct (IH x) as [d Hd]. exists d. exact Hd.
Qed.

Lemma last_byte_cons (c : ascii) (s : string) :
  last_byte (String c s) = match last_byte s with
                           | Some d => Some d
                           | None => Some c
                           end.
Proof.
  destruct s as [|x s]; [reflexivity|].
  destruct (last_byte_nonempty x s) as [d Hd].
  change (last_byte (String c (String x s))) with (last_byte (String x s)).
  rewrite Hd. reflexivity.
Qed.

Lemma last_byte_app (a b : string) :
  last_byte (a ++ b) = match last_byte b with
                       | Some c => Some c
                       | None => last_byte a
                       end.
Proof.
  induction a as [|x a IH].
  - simpl. destruct (last_byte b); reflexivity.
  - change (String x a ++ b) with (String x (a ++ b)).
    rewrite !last_byte_cons, IH.
    destruct (last_byte b); [reflexivity|].
    destruct (last_byte a); reflexivity.
Qed.

Lemma addElementSeparator_value (buf : string) :
  ends_value buf = true -> addElementSeparator buf = buf ++ ",".
Proof.
  unfold ends_value, addElementSeparator.
  destruct (last_byte buf) as [c|]; [|discriminate].
  destruct (is_separator c); [discriminate | reflexivity].
Qed.

Lemma addElementSeparator_separator (buf : string) (c : ascii) :
  last_byte buf = Some c -> is_separator c = true ->
  addElementSeparator buf = buf.
Proof.
  unfold addElementSeparator. intros -> ->. reflexivity.
Qed.

Lemma ends_value_app (a b : string) :
  ends_value b = true -> ends_value (a ++ b) = true.
Proof.
  unfold ends_value. rewrite last_byte_app.
  destruct (last_byte b); [tauto | discriminate].
Qed.

Lemma ends_value_cons (c : ascii) (s : string) :
  ends_value s = true -> ends_value (String c s) = true.
Proof.
  intros Hs. change (String c s) with (String c EmptyString ++ s).
  apply ends_value_app. exact Hs.
Qed.

Lemma string_of_uint_ends_value (d : Decimal.uint) :
  d <> Decimal.Nil -> ends_value (NilZero.string_of_uint d) = true.
Proof.
  induction d as [|d IH|d IH|d IH|d IH|d IH|d IH|d IH|d IH|d IH|d IH];
    intros Hd; [contradiction Hd; reflexivity| ..];
    (destruct d; [reflexivity| ..]);
    simpl NilZero.string_of_uint at 1;
    apply ends_value_cons, IH; discriminate.
Qed.

Lemma AppendInt_ends_value (v : Z) : ends_value (AppendInt v) = true.
Proof.
  unfold AppendInt. destruct v as [|p|p]; simpl.
  - reflexivity.
  - apply string_of_uint_ends_value, DecimalPos.Unsigned.to_uint_nonnil.
  - apply ends_value_cons, string_of_uint_ends_value,
      DecimalPos.Unsigned.to_uint_nonnil.
Qed.

Lemma ends_value_render_member (m : member) :
  ends_value (render_member m) = true.
Proof.
  destruct m as [key val | key val | key val | key ms]; cbn [render_member];
    apply ends_value_app.
  - apply ends_value_app, ends_value_app. reflexivity.
  - apply AppendInt_ends_value.
  - destruct val; reflexivity.
  - apply ends_value_app, ends_value_app. reflexivity.
Qed.

Lemma addKey_eq (key buf : string) :
  addKey key buf = addElementSeparator buf ++ json_key key.
Proof. reflexivity. Qed.

Lemma last_byte_json_key (a key : string) :
  last_byte (a ++ json_key key) = Some ":"%char.
Proof.
  unfold json_key. rewrite !last_byte_app. reflexivity.
Qed.

(** After a key nothing separates: the value follows the colon. *)
Lemma addElementSeparator_addKey (key buf : string) :
  addElementSeparator (addKey key buf) = addKey key buf.
Proof.
  rewrite addKey_eq.
  apply (addElementSeparator_separator _ ":"%char);
    [apply last_byte_json_key | reflexivity].
Qed.

Lemma json_put_String (key val buf : string) :
  AddString key val buf = json_put (MString key val) buf.
Proof.
  simpl. unfold AppendString, json_put.
  rewrite addElementSeparator_addKey, addKey_eq. cbn [render_member].
  rewrite append_assoc. reflexivity.
Qed.

Lemma json_put_Int64 (key : string) (val : Z) (buf : string) :
  AddInt64 key val buf = json_put (MInt64 key val) buf.
Proof.
  simpl. unfold AppendInt64, json_put.
  rewrite addElementSeparator_addKey, addKey_eq. cbn [render_member].
  rewrite append_assoc. reflexivity.
Qed.

Lemma json_put_Bool (key : string) (val : bool) (buf : string) :
  AddBool key val buf = json_put (MBool key val) buf.
Proof.
  simpl. unfold AppendBool, json_put.
  rewrite addElementSeparator_addKey, addKey_eq. cbn [render_member].
  rewrite append_assoc. reflexivity.
Qed.

(** Members written after a value: each one takes a comma. *)
Lemma json_put_all_value (ms : list member) :
  forall buf, ends_value buf = true ->
              fold_left (fun e x => json_put x e) ms buf
              = buf ++ concat_all (map (fun y => "," ++ y) (map render_member ms)).
Proof.
  induction ms as [|m ms IH]; intros buf Hbuf; simpl.
  - symmetry. apply append_nil_r.
  - rewrite IH.
    + unfold json_put. rewrite (addElementSeparator_value buf Hbuf).
      rewrite !append_assoc. reflexivity.
    + apply ends_value_app, ends_value_render_member.
Qed.

(** Members written after an opening brace: commas between them. *)
Lemma json_put_all_open (ms : list member) (buf : string) :
  fold_left (fun e x => json_put x e) ms (buf ++ "{")
  = buf ++ "{" ++ join_comma (map render_member ms).
Proof.
  destruct ms as [|m ms]; [reflexivity|]. simpl fold_left.
  assert (Hopen : json_put m (buf ++ "{") = (buf ++ "{") ++ render_member m).
  { unfold json_put. f_equal.
    apply (addElementSeparator_separator _ "{"%char); [|reflexivity].
    rewrite last_byte_app. reflexivity. }
  rewrite Hopen, json_put_all_value
    by (apply ends_value_app, ends_value_render_member).
  simpl join_comma. rewrite !append_assoc. reflexivity.
Qed.

Lemma json_put_Object (key : string) (m : string -> result string)
  (r : result (list member)) :
  (forall enc0,
      m enc0 = (ms <- r ;; Ok (fold_left (fun e x => json_put x e) ms enc0))) ->
  forall buf,
    AddObject key m buf = (ms <- r ;; Ok (json_put (MObject key ms) buf)).
Proof.
  intros Hm buf. simpl. unfold AppendObject.
  rewrite addElementSeparator_addKey, Hm.
  destruct r as [ms| |]; simpl; try reflexivity.
  rewrite json_put_all_open, addKey_eq. unfold json_put. cbn [render_member].
  rewrite !append_assoc. reflexivity.
Qed.

#[global] Instance jsonEncoder_members : MemberEncoder string := {|
  put := json_put;
  put_String := json_put_String;
  put_Int64 := json_put_Int64;
  put_Bool := json_put_Bool;
  put_Object := json_put_Object
|}.

(** ** JSON *)

(** With the level, time, name, caller and stack-trace keys empty,
    [EncodeEntry] writes the message and the fields and nothing else,
    whatever the entry holds and whatever the value encoders are. *)
Lemma EncodeEntry_blank_keys (cfg : EncoderConfig)
  (marshal : Structured -> string -> result string)
  (ent : Entry) (fs : list zapcore_Field) :
  LevelKey cfg = EmptyString -> TimeKey cfg = EmptyString ->
  NameKey cfg = EmptyString -> CallerKey cfg = EmptyString ->
  StacktraceKey cfg = EmptyString ->
  EncodeEntry cfg EmptyString marshal ent fs
  = (final <- addFields marshal fs
                (if is_empty (MessageKey cfg) then "{"
                 else AddString (MessageKey cfg) (Message ent) "{") ;;
     Ok (final ++ "}"
         ++ (if is_empty (LineEnding cfg) then DefaultLineEnding
             else LineEnding cfg))).
Proof.
  intros Hl Ht Hn Hc Hs. unfold EncodeEntry.
  rewrite Hl, Ht, Hn, Hc, Hs. simpl is_empty.
  rewrite !andb_false_r. simpl negb.
  destruct (Caller ent); simpl bind;
    (destruct (addFields marshal fs _); simpl; try reflexivity;
     destruct (is_empty (LineEnding cfg)); simpl;
     rewrite append_assoc; reflexivity).
Qed.

Lemma json_put_all_msg (msg : string) (ms : list member) :
  put_all ms (AddString "msg" msg "{")
  = "{" ++ join_comma (map render_member (MString "msg" msg :: ms)).
Proof.
  rewrite put_String.
  change (put_all ms (put (MString "msg" msg) "{"))
    with (fold_left (fun e x => json_put x e) (MString "msg" msg :: ms)
            (EmptyString ++ "{")).
  apply json_put_all_open.
Qed.

Lemma JSON_fuel_document (s : Structured) (fuel : nat) :
  size_Structured s <= fuel ->
  JSON_fuel fuel s = (ms <- object_members s ;; Ok (render_object ms ++ newline)).
Proof.
  intros Hsize.
  unfold JSON_fuel, MarshalJSON_fuel, JSONBuffer_fuel, entry.
  rewrite object_members_Fields.
  destruct (errorOrCause s) as [msg| |]; cbn [bind]; try reflexivity.
  rewrite EncodeEntry_blank_keys by reflexivity.
  cbn [fst snd Message MessageKey LineEnding jsonEncConf
       NewProductionEncoderConfig is_empty].
  rewrite (addFields_members (MarshalLogObject fuel) fuel
             (MarshalLogObject_members fuel)).
  - destruct (collect field_members (Fields s)) as [ms| |]; cbn [bind];
      try reflexivity.
    rewrite json_put_all_msg. unfold render_object.
    rewrite !append_assoc. reflexivity.
  - intros f Hin. apply size_Fields in Hin. lia.
Qed.

Lemma field_members_keys (f : zapcore_Field) (ms : list member) :
  field_members f = Ok ms -> map member_key ms = field_key f.
Proof.
  destruct f as [| key val | key val | key val | key obj | key e]; simpl;
    intros H; try (injection H as <-; reflexivity).
  - destruct (object_members obj); try discriminate H.
    injection H as <-. reflexivity.
  - destruct (error_Error e); try discriminate H.
    injection H as <-. reflexivity.
Qed.

Lemma collect_field_members_keys (fs : list zapcore_Field) :
  forall ms, collect field_members fs = Ok ms ->
             map member_key ms = field_keys fs.
Proof.
  induction fs as [|f fs IH]; simpl; intros ms H.
  - injection H as <-. reflexivity.
  - destruct (field_members f) as [m1| |] eqn:Hf; try discriminate H.
    simpl in H.
    destruct (collect field_members fs) as [m2| |]; try discriminate H.
    injection H as <-.
    rewrite map_app, (field_members_keys f m1 Hf), (IH m2 eq_refl).
    reflexivity.
Qed.

(** The members of an object: [msg], the own fields, and the object of
    the cause last when the cause is a [Structured]. *)
Lemma object_members_shape (s : Structured) (ms : list member) :
  object_members s = Ok ms ->
  exists msg own cause,
    errorOrCause s = Ok msg /\
    collect field_members (fields s) = Ok own /\
    match causer s with
    | Some (EStructured c) =>
        exists sub, object_members c = Ok sub /\ cause = [MObject "cause" sub]
    | _ => cause = []
    end /\
    ms = (MString "msg" msg :: own ++ cause)%list.
Proof.
  destruct s as [c e fs]. unfold errorOrCause. simpl. intros H.
  destruct (match e with Some e0 => error_Error e0 | None => iface_Error c end)
    as [msg| |]; try discriminate H.
  simpl in H.
  destruct (collect field_members fs) as [own| |]; try discriminate H.
  simpl in H. exists msg, own.
  destruct c as [[es | stre | t u]|]; simpl in H;
    try (injection H as <-; exists []; repeat split).
  destruct (object_members stre) as [sub| |]; try discriminate H.
  injection H as <-. exists [MObject "cause" sub].
  split; [reflexivity|]. split; [reflexivity|]. split; [|reflexivity].
  exists sub. split; reflexivity.
Qed.

Lemma object_members_keys (s : Structured) (ms : list member) :
  object_members s = Ok ms ->
  map member_key ms = ("msg" :: field_keys (fields s) ++ cause_key s)%list.
Proof.
  intros H.
  destruct (object_members_shape s ms H)
    as [msg [own [cause [_ [Hown [Hcause ->]]]]]].
  simpl. rewrite map_app, (collect_field_members_keys _ own Hown).
  f_equal. f_equal. unfold cause_key.
  destruct (causer s) as [[es | stre | t u]|]; try (subst cause; reflexivity).
  destruct Hcause as [sub [_ ->]]. reflexivity.
Qed.

(** C5. [MarshalLogObject] first writes the key "msg", with the
    [Error()] of the own message when one is set (the message itself for
    an error made by [New] or [Wrap]) and the bare [Error()] of the
    immediate cause otherwise, and then the fields of [Fields()], in
    their order: on every encoder, and so on the recording encoder, where
    the members written follow the ones already there. *)
Theorem MarshalLogObject_msg_then_Fields :
  forall (s : Structured) (fuel : nat),
    size_Structured s <= fuel ->
    (forall (E : Type) (enc_E : ObjectEncoder E) (mem_E : MemberEncoder E)
            (oe : E),
        MarshalLogObject fuel s oe
        = (msg <- errorOrCause s ;;
           ms <- collect field_members (Fields s) ;;
           Ok (put_all ms (AddString "msg" msg oe)))) /\
    (forall tr : list member,
        MarshalLogObject fuel s tr
        = (msg <- errorOrCause s ;;
           ms <- collect field_members (Fields s) ;;
           Ok (tr ++ MString "msg" msg :: ms)%list)) /\
    (forall e, err s = Some e -> errorOrCause s = error_Error e) /\
    (forall message,
        err s = Some (EString message) -> errorOrCause s = Ok message) /\
    (forall c, err s = None -> causer s = Some c ->
               errorOrCause s = error_Error c).
Proof.
  intros s fuel Hsize.
  assert (Hgen : forall (E : Type) (enc_E : ObjectEncoder E)
                        (mem_E : MemberEncoder E) (oe : E),
             MarshalLogObject fuel s oe
             = (msg <- errorOrCause s ;;
                ms <- collect field_members (Fields s) ;;
                Ok (put_all ms (AddString "msg" msg oe)))).
  { intros E enc_E mem_E oe.
    rewrite MarshalLogObject_members by exact Hsize.
    rewrite object_members_Fields.
    destruct (errorOrCause s) as [msg| |]; cbn [bind]; try reflexivity.
    destruct (collect field_members (Fields s)) as [ms| |]; cbn [bind];
      try reflexivity.
    unfold put_all. cbn [fold_left]. rewrite put_String. reflexivity. }
  split; [exact Hgen|]. split; [|split; [|split]].
  - intros tr. rewrite (Hgen _ _ recorder_members tr).
    destruct (errorOrCause s) as [msg| |]; cbn [bind]; try reflexivity.
    destruct (collect field_members (Fields s)) as [ms| |]; cbn [bind];
      try reflexivity.
    rewrite recorder_put_all. cbn [AddString recorder].
    rewrite <- app_assoc. reflexivity.
  - intros e He. unfold errorOrCause. rewrite He. reflexivity.
  - intros message He. unfold errorOrCause. rewrite He. reflexivity.
  - intros c He Hc. unfold errorOrCause. rewrite He, Hc. reflexivity.
Qed.

Lemma MarshalLogObject_msg_then_Fields_witness :
  let inner := mkStructured (Some (EString "insufficient permissions"))
                 (Some (EString "writing to file failed"))
                 [zap_String "fileName" "someFile"] in
  let s := mkStructured (Some (EStructured inner))
             (Some (EString "failed to flush db"))
             [zap_String "fieldThatGoes" "ping"] in
  size_Structured s <= 9 /\
  MarshalLogObject 9 s []
  = Ok [MString "msg" "failed to flush db";
        MString "fieldThatGoes" "ping";
        MObject "cause" [MString "msg" "writing to file failed";
                         MString "fileName" "someFile"]].
Proof.
  intros inner s.
  assert (Hsize : size_Structured s <= 9) by (vm_compute; lia).
  split; [exact Hsize|].
  rewrite (proj1 (proj2 (MarshalLogObject_msg_then_Fields s 9 Hsize)) []).
  reflexivity.
Defined.

(** C6, as the code has it.  [JSON()] is the object of [s] followed by
    the line ending that zap's [EncodeEntry] appends after the closing
    brace.  The object holds the key "msg" first, then the keys of the
    context fields of [s] in their order, then the key "cause" with the
    object of the cause when the cause is a [Structured], and no other
    key; it panics where [object_members] does, on a [Structured] with
    neither message nor cause.  For [New("m", code, addr)] the result is
    the object of the three members and a line feed. *)
Theorem JSON_object_then_newline :
  (forall s : Structured,
      (forall k, JSON_fuel (size_Structured s + k) s = JSON s) /\
      JSON s = (ms <- object_members s ;; Ok (render_object ms ++ newline)) /\
      (forall ms,
          object_members s = Ok ms ->
          map member_key ms
          = ("msg" :: field_keys (fields s) ++ cause_key s)%list) /\
      (forall ms c,
          object_members s = Ok ms -> causer s = Some (EStructured c) ->
          exists front sub,
            object_members c = Ok sub /\
            ms = (front ++ [MObject "cause" sub])%list)) /\
  JSON (fst (AsStructured
               (Some (New "m" [zap_Int "code" 1234; zap_String "addr" "x"]))))
  = Ok (json_text "{'msg':'m','code':1234,'addr':'x'}" ++ newline).
Proof.
  split; [|reflexivity].
  intros s. split; [|split; [|split]].
  - intros k. unfold JSON. rewrite !JSON_fuel_document by lia. reflexivity.
  - unfold JSON. apply JSON_fuel_document. lia.
  - apply object_members_keys.
  - intros ms c Hms Hc.
    destruct (object_members_shape s ms Hms)
      as [msg [own [cause [_ [_ [Hcause ->]]]]]].
    rewrite Hc in Hcause. destruct Hcause as [sub [Hsub ->]].
    exists (MString "msg" msg :: own), sub. split; [exact Hsub | reflexivity].
Qed.

(** C6 as stated fails on its own example: the string that [JSON()]
    returns ends with a line feed after the closing brace. *)
Lemma JSON_example_has_newline :
  JSON (fst (AsStructured
               (Some (New "m" [zap_Int "code" 1234; zap_String "addr" "x"]))))
  <> Ok (json_text "{'msg':'m','code':1234,'addr':'x'}").
Proof. vm_compute. discriminate. Qed.

(** * Further properties *)

(** ** Field list *)

(** X1. [Fields()] starts with the own fields, in their order, and adds
    at most one field after them.  A field it adds is the object field
    "cause" of the immediate cause, which is then a [Structured]; a
    [Structured] immediate cause is always added, and a nil cause adds
    nothing.  The fields of the cause itself are not spliced in. *)
Theorem Fields_own_then_cause :
  forall s : Structured,
    (exists rest,
        Fields s = (fields s ++ rest)%list /\
        length rest <= 1 /\
        forall f, In f rest ->
                  exists c, f = zap_Object "cause" c
                            /\ causer s = Some (EStructured c)) /\
    length (Fields s) <= length (fields s) + 1 /\
    firstn (length (fields s)) (Fields s) = fields s /\
    (forall c, causer s = Some (EStructured c) ->
               Fields s = (fields s ++ [zap_Object "cause" c])%list) /\
    (causer s = None -> Fields s = fields s).
Proof.
  intros s. rewrite Fields_eq.
  split; [|split; [|split; [|split]]].
  - eexists. split; [reflexivity|].
    destruct (causer s) as [[es | stre | t u]|]; simpl; split;
      try lia; try tauto.
    intros f [<- | []]. exists stre. split; reflexivity.
  - rewrite length_app.
    destruct (causer s) as [[es | stre | t u]|]; simpl; lia.
  - rewrite firstn_app, Nat.sub_diag, firstn_all. simpl. apply app_nil_r.
  - intros c ->. reflexivity.
  - intros ->. apply app_nil_r.
Qed.

(** ** Chain inspection *)

Lemma AsStructured_foreign_wrap (ts : list string) (e : error) :
  AsStructured (Some (foreign_wrap ts e)) = AsStructured (Some e).
Proof.
  induction ts as [|t ts IH]; [reflexivity|]. exact IH.
Qed.

(** X2. Foreign errors that unwrap to [e] are transparent: through any
    number of them [AsStructured], [IsStructured] and [Field] give what
    they give on [e].  What [New], [Wrap] and [Structure] return is found
    there as it was made, with its cause, message and fields. *)
Theorem AsStructured_through_foreign :
  forall (ts : list string),
    (forall e : error,
        AsStructured (Some (foreign_wrap ts e)) = AsStructured (Some e) /\
        IsStructured (Some (foreign_wrap ts e)) = IsStructured (Some e) /\
        (IsStructured (Some e) = true ->
         Field (Some (foreign_wrap ts e)) = Field (Some e))) /\
    (forall message fs,
        AsStructured (Some (foreign_wrap ts (New message fs)))
        = (mkStructured None (Some (EString message)) fs, true)) /\
    (forall cause message fs e,
        Wrap (Some cause) message fs = Some e ->
        AsStructured (Some (foreign_wrap ts e))
        = (mkStructured (Some cause) (Some (EString message)) fs, true)) /\
    (forall cause fs e,
        Structure (Some cause) fs = Some e ->
        AsStructured (Some (foreign_wrap ts e))
        = (mkStructured (Some cause) None fs, true)).
Proof.
  intros ts. split; [|split; [|split]].
  - intros e. split; [apply AsStructured_foreign_wrap|]. split.
    + unfold IsStructured. rewrite AsStructured_foreign_wrap. reflexivity.
    + unfold IsStructured, Field.
      rewrite AsStructured_foreign_wrap.
      destruct (AsStructured (Some e)) as [stre ok]. intros ->. reflexivity.
  - intros message fs. rewrite AsStructured_foreign_wrap. reflexivity.
  - intros cause message fs e H. injection H as <-.
    rewrite AsStructured_foreign_wrap. reflexivity.
  - intros cause fs e H. injection H as <-.
    rewrite AsStructured_foreign_wrap. reflexivity.
Qed.

Lemma AsStructured_through_foreign_witness :
  AsStructured
    (Some (foreign_wrap ["read failed"; "io"]
             (EStructured (mkStructured (Some (EString "eof"))
                             (Some (EString "short read")) []))))
  = (mkStructured (Some (EString "eof")) (Some (EString "short read")) [], true).
Proof.
  apply (proj1 (proj2 (proj2 (AsStructured_through_foreign ["read failed"; "io"])))
           (EString "eof") "short read" []).
  reflexivity.
Defined.

(** ** Display string *)

Lemma apply_layers_Some (ls : list layer) (base : error) :
  exists e, apply_layers ls (Some base) = Some e.
Proof.
  induction ls as [|[message fs | fs] ls [e IH]]; simpl.
  - exists base. reflexivity.
  - rewrite IH. eexists. reflexivity.
  - rewrite IH. eexists. reflexivity.
Qed.

(** X3. A tower of [Wrap] and [Structure] calls.  Over a nil error it is
    nil, whatever the layers; over a non-nil error it is non-nil, and its
    [Error()] is the messages of the [Wrap] layers, outermost first, each
    followed by a colon and a space, then the [Error()] of the base: the
    [Structure] layers and all the fields leave the string as it is. *)
Theorem Error_of_layers :
  forall (ls : list layer),
    apply_layers ls None = None /\
    forall base : error,
      (exists e, apply_layers ls (Some base) = Some e) /\
      iface_Error (apply_layers ls (Some base))
      = (t <- error_Error base ;; Ok (join_colon (layer_messages ls) t)).
Proof.
  intros ls. split.
  - induction ls as [|[message fs | fs] ls IH]; simpl;
      try rewrite IH; reflexivity.
  - intros base. split; [apply apply_layers_Some|].
    induction ls as [|[message fs | fs] ls IH]; simpl.
    + destruct (error_Error base); reflexivity.
    + destruct (apply_layers_Some ls base) as [e He].
      rewrite He in *. simpl in *. rewrite IH.
      destruct (error_Error base); reflexivity.
    + destruct (apply_layers_Some ls base) as [e He].
      rewrite He in *. simpl in *. exact IH.
Qed.

Lemma prefix_append (a b : string) : prefix a (a ++ b) = true.
Proof.
  induction a as [|c a IH]; simpl.
  - destruct b; reflexivity.
  - destruct (ascii_dec c c) as [_ | Hne]; [exact IH | contradiction Hne; reflexivity].
Qed.

Lemma prefix_refl (a : string) : prefix a a = true.
Proof.
  rewrite <- (append_nil_r a) at 2. apply prefix_append.
Qed.

(** X4. Whenever [Error()] of a [Structured] returns, [errorOrCause]
    (the "msg" of the serialized object) returns too, and what it returns
    is a prefix of the [Error()] string: the two are equal unless both a
    message and a cause are set, where [Error()] goes on with a colon, a
    space and the [Error()] of the cause. *)
Theorem errorOrCause_prefix_of_Error :
  forall (s : Structured) (text : string),
    Structured_Error s = Ok text ->
    exists msg,
      errorOrCause s = Ok msg /\
      prefix msg text = true /\
      match err s, causer s with
      | Some _, Some c =>
          exists t, error_Error c = Ok t /\ text = msg ++ ": " ++ t
      | _, _ => text = msg
      end.
Proof.
  intros [c e fs] text H. unfold errorOrCause. simpl in *.
  destruct e as [e|]; destruct c as [c|]; try discriminate H.
  - destruct (error_Error e) as [m| |]; try discriminate H.
    destruct (error_Error c) as [t| |]; try discriminate H.
    simpl in H. injection H as <-.
    exists m. split; [reflexivity|]. split; [apply prefix_append|].
    exists t. split; reflexivity.
  - exists text. split; [exact H|]. split; [apply prefix_refl | reflexivity].
  - exists text. split; [exact H|]. split; [apply prefix_refl | reflexivity].
Qed.

Lemma errorOrCause_prefix_of_Error_witness :
  exists msg,
    errorOrCause (mkStructured (Some (New "inner" [])) (Some (EString "outer")) [])
    = Ok msg /\
    prefix msg "outer: inner" = true /\
    exists t, error_Error (New "inner" []) = Ok t /\
              "outer: inner" = msg ++ ": " ++ t.
Proof.
  apply (errorOrCause_prefix_of_Error
           (mkStructured (Some (New "inner" [])) (Some (EString "outer")) [])
           "outer: inner").
  reflexivity.
Defined.

(** ** Serialization *)

Lemma plain_field_members (f : zapcore_Field) :
  plain_field f = true -> exists ms, field_members f = Ok ms.
Proof.
  destruct f; simpl; intros H; try discriminate H; eexists; reflexivity.
Qed.

Lemma plain_fields_collect (fs : list zapcore_Field) :
  forallb plain_field fs = true ->
  exists ms, collect field_members fs = Ok ms.
Proof.
  induction fs as [|f fs IH]; simpl; intros H.
  - eexists. reflexivity.
  - apply andb_true_iff in H. destruct H as [Hf Hfs].
    destruct (plain_field_members f Hf) as [m1 ->].
    destruct (IH Hfs) as [m2 ->]. eexists. reflexivity.
Qed.

Lemma from_constructors_returns (e : error) :
  from_constructors e ->
  (exists text, error_Error e = Ok text) /\
  (forall s, e = EStructured s -> exists ms, object_members s = Ok ms).
Proof.
  induction 1 as [es | text unwrap | message fs Hfs
                 | cause message fs e Hc [[t Ht] IHo] Hfs Hw
                 | cause fs e Hc [[t Ht] IHo] Hfs Hs].
  - split; [eexists; reflexivity | intros s Hs; discriminate Hs].
  - split; [eexists; reflexivity | intros s Hs; discriminate Hs].
  - split; [eexists; reflexivity|].
    intros s Hs. injection Hs as <-. simpl.
    destruct (plain_fields_collect fs Hfs) as [own ->].
    eexists. reflexivity.
  - injection Hw as <-. split.
    + simpl. rewrite Ht. eexists. reflexivity.
    + intros s Hs. injection Hs as <-. simpl.
      destruct (plain_fields_collect fs Hfs) as [own ->]. simpl.
      destruct cause as [es | stre | text u]; try (eexists; reflexivity).
      destruct (IHo stre eq_refl) as [sub ->]. eexists. reflexivity.
  - injection Hs as <-. split.
    + simpl. rewrite Ht. eexists. reflexivity.
    + intros s Hs. injection Hs as <-. simpl.
      change (match cause with
              | EString es => Ok es
              | EStructured s => Structured_Error s
              | EForeign text _ => Ok text
              end) with (error_Error cause).
      rewrite Ht. simpl.
      destruct (plain_fields_collect fs Hfs) as [own ->]. simpl.
      destruct cause as [es | stre | text u]; try (eexists; reflexivity).
      destruct (IHo stre eq_refl) as [sub ->]. eexists. reflexivity.
Qed.

(** X5. An error made by [New], [Wrap] and [Structure] with plain
    fields, over [String]s and foreign errors, never panics: [Error()]
    returns, [AsStructured] finds a [Structured] when the error is one,
    and [JSON()] of it returns an object and a line feed. *)
Theorem from_constructors_no_panic :
  forall e : error,
    from_constructors e ->
    (exists text, error_Error e = Ok text) /\
    (forall s, e = EStructured s ->
               AsStructured (Some e) = (s, true) /\
               (exists msg, errorOrCause s = Ok msg) /\
               exists ms, object_members s = Ok ms
                          /\ JSON s = Ok (render_object ms ++ newline)).
Proof.
  intros e He.
  destruct (from_constructors_returns e He) as [Herr Hobj].
  split; [exact Herr|].
  intros s ->. destruct (Hobj s eq_refl) as [ms Hms].
  assert (Hmsg : exists msg, errorOrCause s = Ok msg).
  { destruct (object_members_shape s ms Hms) as [msg [_ [_ [Hm _]]]].
    exists msg. exact Hm. }
  split; [|split; [exact Hmsg|]].
  - unfold AsStructured. simpl. f_equal.
    destruct Hmsg as [msg Hmsg]. unfold errorOrCause in Hmsg.
    unfold nonempty. destruct (err s); [apply orb_true_r|].
    destruct (causer s); [reflexivity | discriminate Hmsg].
  - exists ms. split; [exact Hms|].
    unfold JSON. rewrite JSON_fuel_document by lia. rewrite Hms. reflexivity.
Qed.

Lemma from_constructors_no_panic_witness :
  exists text,
    error_Error (EStructured
                   (mkStructured (Some (New "inner" [zap_Int "code" 7]))
                      (Some (EString "outer")) [zap_Bool "retry" true]))
    = Ok text.
Proof.
  apply (from_constructors_no_panic
           (EStructured
              (mkStructured (Some (New "inner" [zap_Int "code" 7]))
                 (Some (EString "outer")) [zap_Bool "retry" true]))).
  apply (fc_Wrap (New "inner" [zap_Int "code" 7]) "outer" [zap_Bool "retry" true]).
  - apply fc_New. reflexivity.
  - reflexivity.
  - reflexivity.
Defined.

(** X6. The two ways to the JSON object agree: [JSON()], which hands the
    message and the fields of [s] to [EncodeEntry], returns what the
    encoder's [AppendObject] writes for [s] through [MarshalLogObject],
    followed by the line ending. *)
Theorem JSON_is_MarshalLogObject_object :
  forall (s : Structured) (k : nat),
    JSON_fuel (size_Structured s + k) s
    = (buf <- AppendObject (MarshalLogObject (size_Structured s + k) s)
                EmptyString ;;
       Ok (buf ++ newline)).
Proof.
  intros s k. rewrite JSON_fuel_document by lia.
  unfold AppendObject. cbn [addElementSeparator last_byte append].
  rewrite MarshalLogObject_members by lia.
  destruct (object_members s) as [ms| |]; cbn [bind]; try reflexivity.
  change (put_all ms "{")
    with (fold_left (fun e x => json_put x e) ms (EmptyString ++ "{")).
  rewrite json_put_all_open. unfold render_object.
  cbn [append]. rewrite !append_assoc. reflexivity.
Qed.

Lemma length_append (a b : string) :
  String.length (a ++ b) = String.length a + String.length b.
Proof.
  induction a as [|c a IH]; simpl; [reflexivity|]. rewrite IH. reflexivity.
Qed.

Lemma append_inv_tail (a b n : string) : a ++ n = b ++ n -> a = b.
Proof.
  revert b. induction a as [|c a IH]; intros [|d b] H; simpl in H.
  - reflexivity.
  - apply (f_equal String.length) in H. simpl in H.
    rewrite length_append in H. lia.
  - apply (f_equal String.length) in H. simpl in H.
    rewrite length_append in H. lia.
  - injection H as -> H. f_equal. apply IH. exact H.
Qed.

Lemma size_AsStructured_walk (e : error) :
  size_Structured (AsStructured_walk e) <= size_error e.
Proof.
  induction e as [e IH] using error_unwrap_ind.
  destruct e as [es | s | t [[c|]|]]; simpl; try lia.
  specialize (IH c eq_refl). lia.
Qed.



(** X8. A no-op field among the context fields, as [Field(nil)] is,
    leaves the serialized object and the JSON text as they are without
    it. *)
Theorem Field_nil_among_fields :
  forall (c e : option error) (fs1 fs2 : list zapcore_Field),
    object_members (mkStructured c e (fs1 ++ Field None :: fs2))
    = object_members (mkStructured c e (fs1 ++ fs2)) /\
    JSON (mkStructured c e (fs1 ++ Field None :: fs2))
    = JSON (mkStructured c e (fs1 ++ fs2)).
Proof.
  intros c e fs1 fs2.
  assert (Hobj : object_members (mkStructured c e (fs1 ++ Field None :: fs2))
                 = object_members (mkStructured c e (fs1 ++ fs2))).
  { cbn [object_members Field]. rewrite !collect_app.
    replace (collect field_members (zap_Skip :: fs2))
      with (collect field_members fs2); [reflexivity|].
    cbn [collect field_members bind].
    destruct (collect field_members fs2); reflexivity. }
  split; [exact Hobj|].
  unfold JSON. rewrite !JSON_fuel_document by lia. rewrite Hobj. reflexivity.
Qed.

Lemma concat_all_app (l1 l2 : list string) :
  concat_all (l1 ++ l2) = concat_all l1 ++ concat_all l2.
Proof.
  induction l1 as [|x l1 IH]; simpl; [reflexivity|].
  rewrite IH, append_assoc. reflexivity.
Qed.

Lemma JSON_nests_cause_aux (s c : Structured) (out : string) :
  causer s = Some (EStructured c) -> JSON s = Ok out ->
  exists sub, object_members c = Ok sub.
Proof.
  intros Hc Hjson.
  unfold JSON in Hjson. rewrite JSON_fuel_document in Hjson by lia.
  destruct (object_members s) as [ms| |] eqn:Hms; try discriminate Hjson.
  destruct (object_members_shape s ms Hms)
    as [msg [own [cause [_ [_ [Hcause _]]]]]].
  rewrite Hc in Hcause. destruct Hcause as [sub [Hsub _]].
  exists sub. exact Hsub.
Qed.

(** X9. Nesting.  When the immediate cause of [s] is a [Structured] [c]
    and [JSON()] of [s] returns, [JSON()] of [c] returns too, and the text
    for [s] is: the message and the own members of [s], then a comma, the
    key "cause" and the object of [c] exactly as [JSON()] of [c] gives it,
    then the closing brace and the line ending. *)
Theorem JSON_nests_cause :
  forall (s c : Structured) (out : string),
    causer s = Some (EStructured c) ->
    JSON s = Ok out ->
    exists msg own doc,
      errorOrCause s = Ok msg /\
      collect field_members (fields s) = Ok own /\
      JSON c = Ok (doc ++ newline) /\
      out = "{" ++ join_comma (map render_member (MString "msg" msg :: own))
            ++ "," ++ json_key "cause" ++ doc ++ "}" ++ newline.
Proof.
  intros s c out Hc Hjson.
  unfold JSON in Hjson. rewrite JSON_fuel_document in Hjson by lia.
  destruct (object_members s) as [ms| |] eqn:Hms; try discriminate Hjson.
  cbn [bind] in Hjson. injection Hjson as <-.
  destruct (object_members_shape s ms Hms)
    as [msg [own [cause [Hmsg [Hown [Hcause ->]]]]]].
  rewrite Hc in Hcause. destruct Hcause as [sub [Hsub ->]].
  exists msg, own, (render_object sub).
  split; [exact Hmsg|]. split; [exact Hown|]. split.
  - unfold JSON. rewrite JSON_fuel_document by lia. rewrite Hsub. reflexivity.
  - unfold render_object. cbn [map join_comma].
    rewrite !map_app, concat_all_app. cbn [map concat_all fold_right render_member].
    rewrite append_nil_r, !append_assoc. reflexivity.
Qed.

Lemma JSON_nests_cause_witness :
  exists msg own doc,
    errorOrCause (mkStructured (Some (New "mid" [zap_String "f" "1"]))
                    (Some (EString "outer")) [zap_String "g" "2"]) = Ok msg /\
    collect field_members [zap_String "g" "2"] = Ok own /\
    JSON (mkStructured None (Some (EString "mid")) [zap_String "f" "1"])
    = Ok (doc ++ newline) /\
    json_text "{'msg':'outer','g':'2','cause':{'msg':'mid','f':'1'}}" ++ newline
    = "{" ++ join_comma (map render_member (MString "msg" msg :: own))
      ++ "," ++ json_key "cause" ++ doc ++ "}" ++ newline.
Proof.
  apply (JSON_nests_cause
           (mkStructured (Some (New "mid" [zap_String "f" "1"]))
              (Some (EString "outer")) [zap_String "g" "2"])
           (mkStructured None (Some (EString "mid")) [zap_String "f" "1"])).
  - reflexivity.
  - reflexivity.
Defined.

Lemma empty_Structured_no_members (z : Structured) :
  nonempty z = false -> forall ms, object_members z <> Ok ms.
Proof.
  intros Hz ms Hms.
  apply nonempty_false in Hz. destruct Hz as [Hc He].
  destruct (object_members_shape z ms Hms) as [msg [_ [_ [Hmsg _]]]].
  unfold errorOrCause in Hmsg. rewrite He, Hc in Hmsg. discriminate Hmsg.
Qed.

(** X10. Wrapping a [Structured] that has neither message nor cause.
    The cause is not nil (the interface holds a value), so [Wrap] and
    [Structure] return an error, [AsStructured] finds it and [Fields()]
    holds the "cause" object; but [Error()] panics on the nil cause of the
    inner value, and [JSON()] never returns.  The "msg" of the [Wrap]
    result is its message; [errorOrCause] of the [Structure] result
    panics. *)
Theorem wrapping_empty_Structured_panics :
  forall (z : Structured) (message : string) (fs : list zapcore_Field),
    nonempty z = false ->
    (exists s,
        Wrap (Some (EStructured z)) message fs = Some (EStructured s) /\
        AsStructured (Some (EStructured s)) = (s, true) /\
        In (zap_Object "cause" z) (Fields s) /\
        errorOrCause s = Ok message /\
        Structured_Error s = Panic /\
        forall out, JSON s <> Ok out) /\
    (exists s,
        Structure (Some (EStructured z)) fs = Some (EStructured s) /\
        AsStructured (Some (EStructured s)) = (s, true) /\
        In (zap_Object "cause" z) (Fields s) /\
        errorOrCause s = Panic /\
        Structured_Error s = Panic /\
        forall out, JSON s <> Ok out).
Proof.
  intros z message fs Hz.
  assert (Herr : Structured_Error z = Panic).
  { apply nonempty_false in Hz. destruct z as [c e fz]. simpl in Hz.
    destruct Hz as [-> ->]. reflexivity. }
  assert (Hjson : forall s, causer s = Some (EStructured z) ->
                            forall out, JSON s <> Ok out).
  { intros s Hc out Hout.
    destruct (JSON_nests_cause_aux s z out Hc Hout) as [sub Hsub].
    apply (empty_Structured_no_members z Hz sub Hsub). }
  split.
  - exists (mkStructured (Some (EStructured z)) (Some (EString message)) fs).
    split; [reflexivity|]. split; [reflexivity|]. split.
    + rewrite Fields_eq. apply in_or_app. right. left. reflexivity.
    + split; [reflexivity|]. split.
      * simpl. rewrite Herr. reflexivity.
      * apply Hjson. reflexivity.
  - exists (mkStructured (Some (EStructured z)) None fs).
    split; [reflexivity|]. split; [reflexivity|]. split.
    + rewrite Fields_eq. apply in_or_app. right. left. reflexivity.
    + split; [|split].
      * unfold errorOrCause. simpl. exact Herr.
      * simpl. exact Herr.
      * apply Hjson. reflexivity.
Qed.

Lemma wrapping_empty_Structured_panics_witness :
  exists s,
    Wrap (Some (EStructured zero_Structured)) "outer" [] = Some (EStructured s) /\
    AsStructured (Some (EStructured s)) = (s, true) /\
    In (zap_Object "cause" zero_Structured) (Fields s) /\
    errorOrCause s = Ok "outer" /\
    Structured_Error s = Panic /\
    forall out, JSON s <> Ok out.
Proof.
  apply (wrapping_empty_Structured_panics zero_Structured "outer" []).
  reflexivity.
Defined.

Lemma passes_foreign_wrap (ts : list string) (e : error) :
  passes (foreign_wrap ts e) = length ts + passes e.
Proof.
  induction ts as [|t ts IH]; simpl; [reflexivity|]. rewrite IH. reflexivity.
Qed.

(** X11. The loop of [AsStructured] stops at the first [Structured]: on
    a [Structured] behind [n] foreign errors it makes [n + 1] passes, no
    fewer, and returns that [Structured], however long the chain of causes
    behind it is. *)
Theorem AsStructured_stops_at_first :
  forall (ts : list string) (s : Structured),
    (forall k,
        AsStructured_fuel (length ts + 1 + k)
          (Some (foreign_wrap ts (EStructured s)))
        = Ok (s, nonempty s)) /\
    (forall fuel,
        fuel < length ts + 1 ->
        AsStructured_fuel fuel (Some (foreign_wrap ts (EStructured s)))
        = OutOfFuel).
Proof.
  intros ts s.
  assert (Hp : passes (foreign_wrap ts (EStructured s)) = length ts + 1)
    by apply passes_foreign_wrap.
  split.
  - intros k. rewrite <- Hp, AsStructured_fuel_complete.
    rewrite AsStructured_foreign_wrap. reflexivity.
  - intros fuel Hlt. unfold AsStructured_fuel.
    rewrite AsStructured_for_short by lia. reflexivity.
Qed.

(** ** Log lines *)

Lemma AddTo_Field_json (e : error) (fuel : nat) (buf : string) :
  size_error e <= fuel ->
  AddTo (MarshalLogObject fuel) (Field (Some e)) buf
  = if IsStructured (Some e)
    then (ms <- object_members (fst (AsStructured (Some e))) ;;
          Ok (json_put (MObject "error" ms) buf))
    else (text <- error_Error e ;; Ok (json_put (MString "error" text) buf)).
Proof.
  intros Hsize.
  pose proof (size_AsStructured_walk e) as Hwalk.
  unfold IsStructured, Field, AsStructured. cbn [fst].
  set (s := AsStructured_walk e) in *.
  assert (Hle : size_Structured s <= fuel) by lia.
  destruct (nonempty s).
  - cbn [AddTo].
    apply (json_put_Object "error" (MarshalLogObject fuel s) (object_members s)).
    intros enc0.
    exact (MarshalLogObject_members (mem_E := jsonEncoder_members)
             fuel s enc0 Hle).
  - unfold zap_Error. cbn [AddTo].
    destruct (error_Error e) as [text| |]; cbn [bind]; try reflexivity.
    rewrite json_put_String. reflexivity.
Qed.

(** X12. The line that a logger with the keys "level" and "msg", no
    time key and the lower-case level encoder writes for
    [Error(msg, Field(e))], as in the package's examples: when
    [AsStructured] finds a [Structured] in [e], the line is the level, the
    message, then the key "error" with the object that [JSON()] gives for
    the found [Structured], and the line ending. *)
Theorem Logger_Error_Field_line :
  forall (cfg : EncoderConfig) (msg : string) (now : Z) (e : error)
         (fuel : nat) (doc : string),
    LevelKey cfg = "level" ->
    EncodeLevel cfg = LowercaseLevelEncoder ->
    TimeKey cfg = EmptyString ->
    MessageKey cfg = "msg" ->
    LineEnding cfg = EmptyString ->
    size_error e <= fuel ->
    IsStructured (Some e) = true ->
    JSON (fst (AsStructured (Some e))) = Ok (doc ++ newline) ->
    EncodeEntry cfg EmptyString (MarshalLogObject fuel)
      (Logger_Error_entry msg now) [Field (Some e)]
    = Ok (json_text "{'level':'error','msg':"
          ++ quote ++ safeAddString msg ++ quote
          ++ "," ++ json_key "error" ++ doc ++ "}" ++ newline).
Proof.
  intros cfg msg now e fuel doc Hlk Hle Htk Hmk Hln Hsize Hfound Hjson.
  unfold JSON in Hjson. rewrite JSON_fuel_document in Hjson
    by (pose proof (size_AsStructured_walk e); simpl; lia).
  destruct (object_members (fst (AsStructured (Some e)))) as [ms| |] eqn:Hms;
    try discriminate Hjson.
  assert (Hdoc : render_object ms ++ newline = doc ++ newline)
    by (injection Hjson as Hdoc; exact Hdoc).
  apply append_inv_tail in Hdoc. subst doc.
  unfold EncodeEntry, Logger_Error_entry.
  rewrite Hlk, Hle, Htk, Hmk, Hln.
  cbn [Level Time LoggerName Message Caller Stack is_empty negb andb bind
       String.length Nat.ltb Nat.leb].
  replace (encoded_or (LowercaseLevelEncoder 2)
             (AppendString (Level_String 2)) (addKey "level" "{"))
    with (json_text "{'level':'error'") by reflexivity.
  replace (addKey "msg" (json_text "{'level':'error'"))
    with (json_text "{'level':'error','msg':") by reflexivity.
  unfold AppendString at 1.
  replace (addElementSeparator (json_text "{'level':'error','msg':"))
    with (json_text "{'level':'error','msg':") by reflexivity.
  cbn [addFields].
  rewrite AddTo_Field_json by exact Hsize.
  rewrite Hfound, Hms. cbn [bind]. unfold json_put.
  rewrite addElementSeparator_value
    by (apply ends_value_app, ends_value_app, ends_value_app; reflexivity).
  cbn [render_member]. unfold render_object.
  rewrite !append_assoc. reflexivity.
Qed.

Lemma Logger_Error_Field_line_witness :
  let cfg := {| MessageKey := "msg"; LevelKey := "level";
                TimeKey := EmptyString; NameKey := "logger";
                CallerKey := EmptyString; StacktraceKey := EmptyString;
                LineEnding := EmptyString;
                EncodeLevel := LowercaseLevelEncoder;
                EncodeTime := EpochTimeEncoder;
                EncodeCaller := None |} in
  let someError := EString "insufficient permissions" in
  let inner := mkStructured (Some someError)
                 (Some (EString "writing to file failed"))
                 [zap_String "fileName" "someFile"] in
  let finalErr := EStructured
                    (mkStructured (Some (EStructured inner))
                       (Some (EString "failed to flush db"))
                       [zap_String "fieldThatGoes" "ping"]) in
  EncodeEntry cfg EmptyString (MarshalLogObject 12)
    (Logger_Error_entry "failed to flush db" 0) [Field (Some finalErr)]
  = Ok (json_text "{'level':'error','msg':"
        ++ quote ++ safeAddString "failed to flush db" ++ quote
        ++ "," ++ json_key "error"
        ++ json_text "{'msg':'failed to flush db','fieldThatGoes':'ping','cause':{'msg':'writing to file failed','fileName':'someFile'}}"
        ++ "}" ++ newline).
Proof.
  intros cfg someError inner finalErr.
  apply (Logger_Error_Field_line cfg "failed to flush db" 0 finalErr 12);
    try reflexivity.
  vm_compute. lia.
Defined.
